(** * WorkedExamples: the Waterfall scrape payload and the Braid API clients

    A shallow embedding of

    - [Waterfall/src/payload.ts]: the browser-extension content script.  The
      whole scrape / summarise / classify flow of that file sits inside one
      block comment (lines 10 to 111); the live script only tests
      [typeof artoo] and does nothing.  The embedding below is of the flow
      as it is written inside that block, callback by callback.
    - [BraidApi/test/saveactivity.test.ts]: the four mocha cases around
      [ActivityRepostoryApi.save].  The client class itself lives in
      [BraidCommon/src/ActivityRepositoryApi], which is not among the
      sources at hand; it is modelled from the specification.

    JavaScript strings are sequences of UTF-16 code units.  Nothing in the
    payload looks inside a character: it only joins, appends, measures and
    cuts.  A [string] below therefore stands for the sequence of code units,
    one [ascii] per unit; [String.length] is [.length]. *)

From Stdlib Require Import String Ascii List Bool Arith ZArith Lia DecimalString.
Import ListNotations.

Local Open Scope string_scope.
Local Open Scope list_scope.

(** ** JavaScript values

    [summaryRes], [classifyRes] and the caught [e] are declared [any] in the
    source, so whatever the HTTP client hands over is relayed as it is. *)
#[warnings="-register-all"]
Inductive JsValue : Type :=
| JsUndefined
| JsNull
| JsBool (b : bool)
| JsNumber (z : Z)
| JsString (s : string)
| JsObject (fields : list (string * JsValue)).

Definition isString (v : JsValue) : bool :=
  match v with
  | JsString _ => true
  | _ => false
  end.

(** [Number.prototype.toString] on a non-negative integer. *)
Definition toString (i : nat) : string := NilZero.string_of_uint (Nat.to_uint i).

(** [Array.prototype.join] on an array of strings. *)
Definition join (sep : string) (fragments : list string) : string :=
  String.concat sep fragments.

Module Payload.

(** *** Constants of the script *)

Definition NN : nat := 1024 * 100.

Definition summarizeQuery : string :=
  "https://braidapi.azurewebsites.net/api/summarize?session=49b65194-26e1-4041-ab11-4078229f478a".
Definition classifyQuery : string :=
  "https://braidapi.azurewebsites.net/api/classify?session=49b65194-26e1-4041-ab11-4078229f478a".

Definition initialSummaryText : string := "Summarising ...".
Definition initialClassificationText : string := "Classifying ...".

Definition summaryFallback : string :=
  "Sorry, could not fetch a summary from the Waterfall server.".
Definition classificationFallback : string :=
  "Sorry, could not fetch a classification from the Waterfall server.".

(** *** The host: messages, HTTP, scraping *)

(** The argument of [chrome.runtime.sendMessage]. *)
Record Message : Type := mkMessage { type : string; text : JsValue }.

(** An axios response, as far as the script reads it. *)
Record Response : Type := mkResponse { status : Z; data : JsValue }.

(** How the promise returned by [axios.post] settles. *)
Inductive Settlement : Type :=
| Fulfilled (res : Response)
| Rejected (e : JsValue).

(** The two endpoints the script posts to. *)
Inductive Endpoint : Type := Summarize | Classify.

Definition url (ep : Endpoint) : string :=
  match ep with
  | Summarize => summarizeQuery
  | Classify => classifyQuery
  end.

(** The life of one [axios.post]: not issued, awaiting its reply (with the
    [text] it carried), or settled. *)
Inductive Call : Type :=
| Idle
| InFlight (body : JsValue)
| Settled (body : JsValue) (r : Settlement).

Definition inFlight (c : Call) : bool :=
  match c with
  | InFlight _ => true
  | _ => false
  end.

Definition settled (c : Call) : bool :=
  match c with
  | Settled _ _ => true
  | _ => false
  end.

(** [artoo.scrape (selector, 'text')]: the text of every element matching
    the selector, or an exception ([artoo] is [any]; a result that is not an
    array makes [.length] or [.join] throw inside the same [try] block, which
    [Throws] covers as well). *)
Inductive ScrapeResult : Type :=
| Scraped (fragments : list string)
| Throws (e : JsValue).

Definition Artoo : Type := string -> ScrapeResult.

(** Everything the script does to the outside world, in the order done. *)
Inductive Effect : Type :=
| Scrape (selector : string)
| Post (ep : Endpoint) (body : JsValue)
| SendMessage (m : Message)
| ConsoleError (e : JsValue)
| ClearInterval.

(** *** State

    The first five fields are the script's [let] variables.  The others
    belong to the host: whether the interval timer and the one-shot timeout
    are still registered, the two HTTP calls, the log of effects (oldest
    first) and the exceptions that escaped a callback. *)
Record State : Type := mkState {
  haveSummary : bool;
  baseSummaryText : string;
  haveClassification : bool;
  baseClassificationText : string;
  allText : string;
  intervalActive : bool;
  timeoutPending : bool;
  summarizeCall : Call;
  classifyCall : Call;
  effects : list Effect;
  uncaught : list JsValue
}.

Definition set_haveSummary (v : bool) (s : State) : State :=
  mkState v (baseSummaryText s) (haveClassification s) (baseClassificationText s)
    (allText s) (intervalActive s) (timeoutPending s) (summarizeCall s)
    (classifyCall s) (effects s) (uncaught s).

Definition set_baseSummaryText (v : string) (s : State) : State :=
  mkState (haveSummary s) v (haveClassification s) (baseClassificationText s)
    (allText s) (intervalActive s) (timeoutPending s) (summarizeCall s)
    (classifyCall s) (effects s) (uncaught s).

Definition set_haveClassification (v : bool) (s : State) : State :=
  mkState (haveSummary s) (baseSummaryText s) v (baseClassificationText s)
    (allText s) (intervalActive s) (timeoutPending s) (summarizeCall s)
    (classifyCall s) (effects s) (uncaught s).

Definition set_baseClassificationText (v : string) (s : State) : State :=
  mkState (haveSummary s) (baseSummaryText s) (haveClassification s) v
    (allText s) (intervalActive s) (timeoutPending s) (summarizeCall s)
    (classifyCall s) (effects s) (uncaught s).

Definition set_allText (v : string) (s : State) : State :=
  mkState (haveSummary s) (baseSummaryText s) (haveClassification s)
    (baseClassificationText s) v (intervalActive s) (timeoutPending s)
    (summarizeCall s) (classifyCall s) (effects s) (uncaught s).

Definition set_intervalActive (v : bool) (s : State) : State :=
  mkState (haveSummary s) (baseSummaryText s) (haveClassification s)
    (baseClassificationText s) (allText s) v (timeoutPending s)
    (summarizeCall s) (classifyCall s) (effects s) (uncaught s).

Definition set_timeoutPending (v : bool) (s : State) : State :=
  mkState (haveSummary s) (baseSummaryText s) (haveClassification s)
    (baseClassificationText s) (allText s) (intervalActive s) v
    (summarizeCall s) (classifyCall s) (effects s) (uncaught s).

Definition set_call (ep : Endpoint) (v : Call) (s : State) : State :=
  match ep with
  | Summarize =>
      mkState (haveSummary s) (baseSummaryText s) (haveClassification s)
        (baseClassificationText s) (allText s) (intervalActive s)
        (timeoutPending s) v (classifyCall s) (effects s) (uncaught s)
  | Classify =>
      mkState (haveSummary s) (baseSummaryText s) (haveClassification s)
        (baseClassificationText s) (allText s) (intervalActive s)
        (timeoutPending s) (summarizeCall s) v (effects s) (uncaught s)
  end.

Definition call (ep : Endpoint) (s : State) : Call :=
  match ep with
  | Summarize => summarizeCall s
  | Classify => classifyCall s
  end.

Definition log (e : Effect) (s : State) : State :=
  mkState (haveSummary s) (baseSummaryText s) (haveClassification s)
    (baseClassificationText s) (allText s) (intervalActive s)
    (timeoutPending s) (summarizeCall s) (classifyCall s)
    (effects s ++ [e]) (uncaught s).

Definition escape (e : JsValue) (s : State) : State :=
  mkState (haveSummary s) (baseSummaryText s) (haveClassification s)
    (baseClassificationText s) (allText s) (intervalActive s)
    (timeoutPending s) (summarizeCall s) (classifyCall s)
    (effects s) (uncaught s ++ [e]).

(** *** Commands: state passing with exceptions *)

Inductive Outcome (A : Type) : Type :=
| Normal (a : A)
| Thrown (e : JsValue).
Arguments Normal {A} a.
Arguments Thrown {A} e.

Definition Cmd (A : Type) : Type := State -> Outcome A * State.

Definition ret {A} (a : A) : Cmd A := fun s => (Normal a, s).

Definition bind {A B} (c : Cmd A) (k : A -> Cmd B) : Cmd B :=
  fun s =>
    match c s with
    | (Normal a, s') => k a s'
    | (Thrown e, s') => (Thrown e, s')
    end.

Definition throw {A} (e : JsValue) : Cmd A := fun s => (Thrown e, s).

(** [try { body } catch (e) { handler e }]. *)
Definition tryCatch {A} (body : Cmd A) (handler : JsValue -> Cmd A) : Cmd A :=
  fun s =>
    match body s with
    | (Normal a, s') => (Normal a, s')
    | (Thrown e, s') => handler e s'
    end.

Definition read {A} (field : State -> A) : Cmd A := fun s => (Normal (field s), s).

Definition assign (update : State -> State) : Cmd unit :=
  fun s => (Normal tt, update s).

Declare Scope cmd_scope.
Delimit Scope cmd_scope with cmd.
Notation "x <- c ;; k" := (bind c (fun x => k))
  (at level 61, c at next level, right associativity) : cmd_scope.
Notation "c ;; k" := (bind c (fun _ => k))
  (at level 61, right associativity) : cmd_scope.
Local Open Scope cmd_scope.

(** *** Host calls *)

Definition sendMessage (m : Message) : Cmd unit := assign (log (SendMessage m)).

Definition consoleError (e : JsValue) : Cmd unit := assign (log (ConsoleError e)).

Definition clearInterval : Cmd unit :=
  assign (fun s => log ClearInterval (set_intervalActive false s)).

(** [axios.post (url, { data: { text }, headers })]: the request leaves and
    the call is awaiting its reply. *)
Definition axiosPost (ep : Endpoint) (body : JsValue) : Cmd unit :=
  assign (fun s => log (Post ep body) (set_call ep (InFlight body) s)).

Definition artooScrape (artoo : Artoo) (selector : string) : Cmd (list string) :=
  assign (log (Scrape selector)) ;;
  match artoo selector with
  | Scraped fragments => ret fragments
  | Throws e => throw e
  end.

(** *** The callbacks *)

Definition when (b : bool) (c : Cmd unit) : Cmd unit := if b then c else ret tt.

(** The arrow function given to [setInterval (..., 1000)]. *)
Definition intervalCallback : Cmd unit :=
  hs <- read haveSummary ;;
  hc <- read haveClassification ;;
  if negb hs || negb hc then
    when (negb hs)
      (t <- read baseSummaryText ;;
       assign (set_baseSummaryText (t ++ ".")) ;;
       t' <- read baseSummaryText ;;
       sendMessage (mkMessage "Summary" (JsString t'))) ;;
    hc' <- read haveClassification ;;
    when (negb hc')
      (t <- read baseClassificationText ;;
       assign (set_baseClassificationText (t ++ ".")) ;;
       t' <- read baseClassificationText ;;
       sendMessage (mkMessage "Classification" (JsString t')))
  else
    clearInterval.

(** The literal [' \n'] given to [join]: a space, then a line feed. *)
Definition separator : string := String " " (String "010" EmptyString).

(** [for (var i = ...; i < 6; i++) scraped = artoo.scrape ('h' + i.toString(), 'text')]
    with [count] turns left; every turn overwrites [scraped]. *)
Fixpoint headingLoop (artoo : Artoo) (count i : nat) (scraped : list string)
  : Cmd (list string) :=
  match count with
  | O => ret scraped
  | S count' =>
      scraped' <- artooScrape artoo ("h" ++ toString i) ;;
      headingLoop artoo count' (S i) scraped'
  end.

(** The body of the [try] block. *)
Definition extractText (artoo : Artoo) : Cmd unit :=
  scraped <- artooScrape artoo "p" ;;
  scraped' <- (if Nat.eqb (List.length scraped) 0
               then headingLoop artoo 6 0 scraped
               else ret scraped) ;;
  assign (set_allText (join separator scraped')) ;;
  t <- read allText ;;
  if Nat.ltb NN (String.length t)
  then assign (set_allText (substring 0 NN t))
  else ret tt.

(** What the [then] callback of the classify call does. *)
Definition classifyThen (classifyRes : Response) : Cmd unit :=
  assign (set_haveClassification true) ;;
  if Z.eqb (status classifyRes) 200
  then sendMessage (mkMessage "Classification" (data classifyRes))
  else sendMessage (mkMessage "Classification" (JsString classificationFallback)).

(** What its [catch] callback does. *)
Definition classifyCatch (e : JsValue) : Cmd unit :=
  assign (set_haveClassification true) ;;
  consoleError e ;;
  sendMessage (mkMessage "Classification" (JsString classificationFallback)).

(** What the [then] callback of the summarize call does. *)
Definition summarizeThen (summaryRes : Response) : Cmd unit :=
  assign (set_haveSummary true) ;;
  if Z.eqb (status summaryRes) 200
  then
    sendMessage (mkMessage "Summary" (data summaryRes)) ;;
    axiosPost Classify (data summaryRes)
  else
    assign (set_haveSummary true) ;;
    assign (set_haveClassification true) ;;
    sendMessage (mkMessage "Summary" (JsString summaryFallback)) ;;
    sendMessage (mkMessage "Classification" (JsString classificationFallback)).

(** What its [catch] callback does. *)
Definition summarizeCatch (e : JsValue) : Cmd unit :=
  assign (set_haveSummary true) ;;
  assign (set_haveClassification true) ;;
  consoleError e ;;
  sendMessage (mkMessage "Summary" (JsString summaryFallback)) ;;
  sendMessage (mkMessage "Classification" (JsString classificationFallback)).

(** [promise.then (onFulfilled).catch (onRejected)]: a rejection of the
    promise, or an exception out of [onFulfilled], lands in [onRejected]. *)
Definition thenCatch (r : Settlement) (onFulfilled : Response -> Cmd unit)
    (onRejected : JsValue -> Cmd unit) : Cmd unit :=
  tryCatch
    match r with
    | Fulfilled res => onFulfilled res
    | Rejected e => throw e
    end
    onRejected.

(** The whole [try { ... } catch { ... }] statement; the [catch] clause
    assigns the empty string to [allText]. *)
Definition scrapeAll (artoo : Artoo) : Cmd unit :=
  tryCatch (extractText artoo) (fun _ => assign (set_allText EmptyString)).

(** The arrow function given to [setTimeout (..., 500)]. *)
Definition timeoutCallback (artoo : Artoo) : Cmd unit :=
  scrapeAll artoo ;;
  t <- read allText ;;
  axiosPost Summarize (JsString t).

(** *** The event loop

    JavaScript runs one callback at a time, to completion.  The host picks
    any callback that is due: a tick of the interval timer while it is
    registered, the one-shot timeout, or the settlement of a call that is
    awaiting its reply. *)
Inductive Event : Type :=
| Tick
| Timeout
| Reply (ep : Endpoint) (r : Settlement).

Definition enabled (s : State) (ev : Event) : bool :=
  match ev with
  | Tick => intervalActive s
  | Timeout => timeoutPending s
  | Reply ep _ => inFlight (call ep s)
  end.

(** What the host records before it runs the callback. *)
Definition deliver (ev : Event) (s : State) : State :=
  match ev with
  | Tick => s
  | Timeout => set_timeoutPending false s
  | Reply ep r =>
      match call ep s with
      | InFlight body => set_call ep (Settled body r) s
      | _ => s
      end
  end.

Definition callback (artoo : Artoo) (ev : Event) : Cmd unit :=
  match ev with
  | Tick => intervalCallback
  | Timeout => timeoutCallback artoo
  | Reply Summarize r => thenCatch r summarizeThen summarizeCatch
  | Reply Classify r => thenCatch r classifyThen classifyCatch
  end.

(** One turn of the loop; an exception that leaves the callback is the
    host's to report. *)
Definition step (artoo : Artoo) (s : State) (ev : Event) : option State :=
  if enabled s ev then
    match callback artoo ev (deliver ev s) with
    | (Normal _, s') => Some s'
    | (Thrown e, s') => Some (escape e s')
    end
  else None.

Fixpoint runFrom (artoo : Artoo) (s : State) (evs : list Event) : option State :=
  match evs with
  | [] => Some s
  | ev :: evs' =>
      match step artoo s ev with
      | Some s' => runFrom artoo s' evs'
      | None => None
      end
  end.

(** The state once the top-level block has run: variables initialised, both
    timers registered, nothing sent yet. *)
Definition init : State :=
  mkState false initialSummaryText false initialClassificationText EmptyString
    true true Idle Idle [] [].

Definition run (artoo : Artoo) (evs : list Event) : option State :=
  runFrom artoo init evs.

(** The messages handed to [chrome.runtime.sendMessage] so far. *)
Fixpoint messagesOf (l : list Effect) : list Message :=
  match l with
  | [] => []
  | SendMessage m :: l' => m :: messagesOf l'
  | _ :: l' => messagesOf l'
  end.

Definition sent (s : State) : list Message := messagesOf (effects s).

(** The selectors handed to [artoo.scrape] so far. *)
Fixpoint selectorsOf (l : list Effect) : list string :=
  match l with
  | [] => []
  | Scrape sel :: l' => sel :: selectorsOf l'
  | _ :: l' => selectorsOf l'
  end.

(** The requests handed to [axios.post] so far. *)
Fixpoint postsOf (l : list Effect) : list (Endpoint * JsValue) :=
  match l with
  | [] => []
  | Post ep body :: l' => (ep, body) :: postsOf l'
  | _ :: l' => postsOf l'
  end.

End Payload.

(** * The activity repository client *)

Module ActivityRepository.

(** Modelled from the spec: the deployment targets of
    [BraidCommon/src/IEnvironment], which the tests name [kLocal] and
    [kProduction]; the choice only changes the base URL a client talks to. *)
Inductive EEnvironment : Type := kLocal | kProduction.

(** An activity record: the required [id] and whatever else it carries. *)
Record ActivityRecord : Type := mkRecord {
  id : string;
  payload : list (string * JsValue)
}.

(** A settled promise. *)
Inductive Promise (A : Type) : Type :=
| Resolved (value : A)
| Rejection (reason : JsValue).
Arguments Resolved {A} value.
Arguments Rejection {A} reason.

(** Modelled from the spec: the remote service behind one environment.  It
    can be reached or not (a transport failure), and it accepts some session
    keys. *)
Record Service : Type := mkService {
  reachable : bool;
  acceptsKey : string -> bool
}.

Definition World : Type := EEnvironment -> Service.

(** [new ActivityRepostoryApi (environment, sessionKey)]. *)
Record ActivityRepostoryApi : Type := mkApi {
  environment : EEnvironment;
  sessionKey : string
}.

(** Modelled from the spec: [ActivityRepostoryApi.save], which is not among
    the sources.  Section 4.3: the operation submits a record and returns a
    promise resolving to a success boolean; an invalid key yields a resolved
    [false], not a rejection, which is kept for transport failures. *)
Definition save (w : World) (api : ActivityRepostoryApi) (record : ActivityRecord)
  : Promise bool :=
  let service := w (environment api) in
  if reachable service
  then Resolved (acceptsKey service (sessionKey api))
  else Rejection (JsString "transport failure").

(** *** The mocha suite of [saveactivity.test.ts] *)

Inductive Verdict : Type :=
| Passed
| FailedExpectation
| Errored.

(** The body shared by the four cases: build the client, save
    [{ id: randomKey (), test: "Some test data" }], expect the result to be
    [expected].  [key] is the outcome of [randomKey ()]. *)
Definition saveCase (env : EEnvironment) (sessionKey : string) (expected : bool)
    (w : World) (key : string) : Verdict :=
  let api := mkApi env sessionKey in
  let record := mkRecord key [("test", JsString "Some test data")] in
  match save w api record with
  | Resolved ok => if Bool.eqb ok expected then Passed else FailedExpectation
  | Rejection _ => Errored
  end.

(** The four cases, in the order of the file; [envKey] is
    [process.env.SessionKey].  The fourth is titled "in production
    environment" and constructs its client with [EEnvironment.kLocal]. *)
Definition suite (envKey : string) : list (World -> string -> Verdict) :=
  [ saveCase kLocal envKey true;
    saveCase kProduction envKey true;
    saveCase kLocal "thiswillfail" false;
    saveCase kLocal "thiswillfail" false ].

Definition suitePasses (envKey : string) (w : World) (key : string) : Prop :=
  Forall (fun test => test w key = Passed) (suite envKey).

(** A world in which both services answer and accept the key "secret". *)
Definition bothUp : World := fun _ => mkService true (String.eqb "secret").

(** The same four cases, run against any client: [client env sessionKey]
    stands for [new ActivityRepostoryApi (env, sessionKey).save]. *)
Definition saveCaseWith
    (client : EEnvironment -> string -> ActivityRecord -> Promise bool)
    (env : EEnvironment) (sessionKey : string) (expected : bool) (key : string)
  : Verdict :=
  let record := mkRecord key [("test", JsString "Some test data")] in
  match client env sessionKey record with
  | Resolved ok => if Bool.eqb ok expected then Passed else FailedExpectation
  | Rejection _ => Errored
  end.

Definition suiteWith
    (client : EEnvironment -> string -> ActivityRecord -> Promise bool)
    (envKey : string) : list (string -> Verdict) :=
  [ saveCaseWith client kLocal envKey true;
    saveCaseWith client kProduction envKey true;
    saveCaseWith client kLocal "thiswillfail" false;
    saveCaseWith client kLocal "thiswillfail" false ].

(** The modelled client in a given world. *)
Definition clientIn (w : World) : EEnvironment -> string -> ActivityRecord -> Promise bool :=
  fun env sessionKey record => save w (mkApi env sessionKey) record.

(** A world in which production accepts every key. *)
Definition productionLax : World :=
  fun env =>
    match env with
    | kLocal => mkService true (String.eqb "secret")
    | kProduction => mkService true (fun _ => true)
    end.

End ActivityRepository.

(** * Properties of the scrape payload *)

Module PayloadFacts.
Import Payload.
Local Open Scope cmd_scope.

(** ** Auxiliary definitions *)

(** *** The text extraction, read off the code *)

(** Several effects appended to the log at once. *)
Definition logAll (l : list Effect) (s : State) : State :=
  mkState (haveSummary s) (baseSummaryText s) (haveClassification s)
    (baseClassificationText s) (allText s) (intervalActive s)
    (timeoutPending s) (summarizeCall s) (classifyCall s)
    (effects s ++ l) (uncaught s).

(** What [headingLoop] leaves in [scraped]; a throwing [artoo.scrape] ends
    the loop. *)
Fixpoint headingFragments (artoo : Artoo) (count i : nat) (scraped : list string)
  : Outcome (list string) :=
  match count with
  | O => Normal scraped
  | S count' =>
      match artoo ("h" ++ toString i)%string with
      | Scraped fragments => headingFragments artoo count' (S i) fragments
      | Throws e => Thrown e
      end
  end.

(** The selectors [headingLoop] tries. *)
Fixpoint headingSelectors (artoo : Artoo) (count i : nat) : list string :=
  match count with
  | O => []
  | S count' =>
      ("h" ++ toString i)%string ::
      match artoo ("h" ++ toString i)%string with
      | Scraped _ => headingSelectors artoo count' (S i)
      | Throws _ => []
      end
  end.

(** [cut t] is what the [if (allText.length > NN)] leaves in [allText]. *)
Definition cut (t : string) : string :=
  if Nat.ltb NN (String.length t) then substring 0 NN t else t.

(** How the [try] block ends: with the text it leaves in [allText], or with
    the exception that left it. *)
Definition extractOutcome (artoo : Artoo) : Outcome string :=
  match artoo "p" with
  | Throws e => Thrown e
  | Scraped [] =>
      match headingFragments artoo 6 0 [] with
      | Normal fragments => Normal (cut (join separator fragments))
      | Thrown e => Thrown e
      end
  | Scraped fragments => Normal (cut (join separator fragments))
  end.

(** The selectors it asks [artoo] for. *)
Definition scrapedSelectors (artoo : Artoo) : list string :=
  "p" ::
  match artoo "p" with
  | Scraped [] => headingSelectors artoo 6 0
  | _ => []
  end.

(** What the [try { ... } catch { ... }] statement leaves in [allText]. *)
Definition scrapedText (artoo : Artoo) : string :=
  match extractOutcome artoo with
  | Normal t => t
  | Thrown _ => EmptyString
  end.

Arguments scrapedSelectors : simpl never.
Arguments scrapedText : simpl never.

(** *** The invariant of the event loop *)

(** An HTTP failure as the callbacks see it: the promise rejects, or it
    fulfils with a status other than 200. *)
Definition failed (r : Settlement) : bool :=
  match r with
  | Fulfilled res => negb (Z.eqb (status res) 200)
  | Rejected _ => true
  end.

(** A call that has settled with a failure. *)
Definition callFailed (c : Call) : bool :=
  match c with
  | Settled _ r => failed r
  | _ => false
  end.

Definition isIdle (c : Call) : bool :=
  match c with
  | Idle => true
  | _ => false
  end.

(** The requests a call stands for in the log: none while idle, one after. *)
Definition issued (ep : Endpoint) (c : Call) : list (Endpoint * JsValue) :=
  match c with
  | Idle => []
  | InFlight body => [(ep, body)]
  | Settled body _ => [(ep, body)]
  end.

(** The classify call, once issued, carries the [data] of a summarize
    response that came back with status 200. *)
Definition chained (s : State) : Prop :=
  match classifyCall s with
  | Idle => True
  | InFlight body | Settled body _ =>
      match summarizeCall s with
      | Settled _ (Fulfilled res) => status res = 200%Z /\ body = data res
      | _ => False
      end
  end.

(** The text a call carried, once it has been issued. *)
Definition bodyOf (c : Call) : option JsValue :=
  match c with
  | Idle => None
  | InFlight body => Some body
  | Settled body _ => Some body
  end.

(** [n] dots, appended one at a time. *)
Fixpoint dots (n : nat) : string :=
  match n with
  | O => EmptyString
  | S n' => dots n' ++ "."
  end.

(** What holds of every state the loop reaches from [init]. *)
Record Inv (s : State) : Prop := mkInv {
  inv_uncaught : uncaught s = [];
  inv_timeout : timeoutPending s = isIdle (summarizeCall s);
  inv_haveSummary : haveSummary s = settled (summarizeCall s);
  inv_haveClassification :
    haveClassification s = settled (classifyCall s) || callFailed (summarizeCall s);
  inv_chained : chained s;
  inv_interval : haveSummary s && haveClassification s = false -> intervalActive s = true;
  inv_summaryText : exists n, baseSummaryText s = (initialSummaryText ++ dots n)%string;
  inv_classificationText :
    exists n, baseClassificationText s = (initialClassificationText ++ dots n)%string;
  inv_posts :
    postsOf (effects s) =
    issued Summarize (summarizeCall s) ++ issued Classify (classifyCall s)
}.

(** *** The shape of the messages *)

(** The [type] under which the reply of an endpoint is relayed. *)
Definition label (ep : Endpoint) : string :=
  match ep with
  | Summarize => "Summary"
  | Classify => "Classification"
  end.

(** A message is relayed from [evs] when its [text] is the [data] of a
    response with status 200 delivered in [evs], under that endpoint's label. *)
Definition relayedFrom (evs : list Event) (m : Message) : Prop :=
  exists ep res,
    In (Reply ep (Fulfilled res)) evs /\
    status res = 200%Z /\ type m = label ep /\ text m = data res.

Definition shaped (evs : list Event) (m : Message) : Prop :=
  (type m = "Summary" \/ type m = "Classification") /\
  (isString (text m) = true \/ relayedFrom evs m).

(** *** The extraction as the specification words it *)

Definition isHeadingSelector (selector : string) : Prop :=
  exists i, selector = ("h" ++ toString i)%string.

(** The line feed ['\n'] on its own. *)
Definition lineFeed : string := String "010" EmptyString.

(** The headings of levels 0 to 6, one level after the other. *)
Definition specHeadings (artoo : Artoo) : list string :=
  flat_map
    (fun i => match artoo ("h" ++ toString i)%string with
              | Scraped fragments => fragments
              | Throws _ => []
              end)
    (seq 0 7).

(** The paragraphs or, when there is none, those headings, joined by line
    feeds. *)
Definition specText (artoo : Artoo) : string :=
  match artoo "p" with
  | Scraped [] => join lineFeed (specHeadings artoo)
  | Scraped fragments => join lineFeed fragments
  | Throws _ => EmptyString
  end.

(** *** Sample pages and runs *)

(** Two paragraphs, no headings. *)
Definition twoParagraphs : Artoo :=
  fun selector => if String.eqb selector "p" then Scraped ["a"; "b"] else Scraped [].

(** No paragraph; one [h3] and one [h6] heading. *)
Definition headingsOnly : Artoo :=
  fun selector =>
    if String.eqb selector "h3" then Scraped ["Section"]
    else if String.eqb selector "h6" then Scraped ["Title"]
    else Scraped [].

(** A page on which [artoo.scrape] throws. *)
Definition brokenPage : Artoo := fun _ => Throws (JsString "scrape failed").

(** [n] copies of one character. *)
Fixpoint replicate (n : nat) (c : ascii) : string :=
  match n with
  | O => EmptyString
  | S n' => String c (replicate n' c)
  end.

(** One paragraph of 150000 characters. *)
Definition longPage : Artoo :=
  fun selector =>
    if String.eqb selector "p" then Scraped [replicate (150 * 1000) "x"] else Scraped [].

(** The state of [twoParagraphs] once the timeout callback has posted the
    summarize request. *)
Definition awaitingSummary : State :=
  match run twoParagraphs [Timeout] with
  | Some s => s
  | None => init
  end.

(** The events that take [twoParagraphs] to the point where the summary has
    come back and the classify request is awaiting its reply, and the state
    they lead to. *)
Definition untilClassifying : list Event :=
  [Timeout; Tick; Reply Summarize (Fulfilled (mkResponse 200 (JsString "summary")))].

Definition awaitingClassification : State :=
  Eval vm_compute in
    match run twoParagraphs untilClassifying with
    | Some s => s
    | None => init
    end.

(** *** What a run leaves behind *)

(** The state the timeout callback leaves: the page scraped, [allText]
    assigned, the summarize request on its way. *)
Definition afterTimeout (artoo : Artoo) (s : State) : State :=
  set_call Summarize (InFlight (JsString (scrapedText artoo)))
    (set_allText (scrapedText artoo)
       (logAll (map Scrape (scrapedSelectors artoo) ++
                [Post Summarize (JsString (scrapedText artoo))])
          (set_timeoutPending false s))).

Arguments afterTimeout : simpl never.

(** The selector ['h' + i.toString ()]. *)
Definition headingSelector (i : nat) : string := ("h" ++ toString i)%string.

(** The values handed to [console.error] so far. *)
Fixpoint errorsOf (l : list Effect) : list JsValue :=
  match l with
  | [] => []
  | ConsoleError e :: l' => e :: errorsOf l'
  | _ :: l' => errorsOf l'
  end.

(** The reason an event brings, when it is a rejected promise. *)
Definition rejection (ev : Event) : list JsValue :=
  match ev with
  | Reply _ (Rejected e) => [e]
  | _ => []
  end.

Definition isTick (ev : Event) : bool :=
  match ev with
  | Tick => true
  | _ => false
  end.

(** The event that ends the summarize leg: its reply. *)
Definition endsSummary (ev : Event) : bool :=
  match ev with
  | Reply Summarize _ => true
  | _ => false
  end.

(** The event that ends the classify leg: its own reply, or a failed
    summarize reply. *)
Definition endsClassification (ev : Event) : bool :=
  match ev with
  | Reply Classify _ => true
  | Reply Summarize r => failed r
  | _ => false
  end.

(** The ticks delivered before the first event that [stop] accepts. *)
Fixpoint ticksUntil (stop : Event -> bool) (evs : list Event) : nat :=
  match evs with
  | [] => 0
  | ev :: evs' =>
      if stop ev then 0
      else (if isTick ev then 1 else 0) + ticksUntil stop evs'
  end.

(** The last message of a given [type] in a list, oldest first. *)
Fixpoint lastOfType (ty : string) (l : list Message) : option Message :=
  match l with
  | [] => None
  | m :: l' =>
      match lastOfType ty l' with
      | Some m' => Some m'
      | None => if String.eqb (type m) ty then Some m else None
      end
  end.

(** The fallback text of a stage. *)
Definition fallbackOf (ep : Endpoint) : string :=
  match ep with
  | Summarize => summaryFallback
  | Classify => classificationFallback
  end.

(** The [text] under which the reply of a call is reported: its [data] when
    it fulfils with status 200, the fallback of its stage otherwise. *)
Definition resultText (ep : Endpoint) (r : Settlement) : JsValue :=
  match r with
  | Fulfilled res =>
      if Z.eqb (status res) 200 then data res else JsString (fallbackOf ep)
  | Rejected _ => JsString (fallbackOf ep)
  end.

(** The messages the callbacks of a reply send, in order. *)
Definition replyMessages (ep : Endpoint) (r : Settlement) : list Message :=
  mkMessage (label ep) (resultText ep r) ::
  match ep with
  | Summarize =>
      if failed r
      then [mkMessage "Classification" (JsString classificationFallback)]
      else []
  | Classify => []
  end.

(** The last message of each type is the result of its leg, once that leg
    has ended. *)
Record Final (s : State) : Prop := mkFinal {
  final_summary : forall body r,
    summarizeCall s = Settled body r ->
    lastOfType "Summary" (sent s)
      = Some (mkMessage "Summary" (resultText Summarize r));
  final_classification : forall body r,
    classifyCall s = Settled body r ->
    lastOfType "Classification" (sent s)
      = Some (mkMessage "Classification" (resultText Classify r));
  final_dependent :
    callFailed (summarizeCall s) = true ->
    lastOfType "Classification" (sent s)
      = Some (mkMessage "Classification" (JsString classificationFallback))
}.

(** Before the timeout fires nothing is scraped and [allText] is empty;
    after it, [allText], the selectors scraped and the text of the summarize
    request are those the page gave. *)
Definition Paged (artoo : Artoo) (s : State) : Prop :=
  if timeoutPending s
  then allText s = EmptyString /\ selectorsOf (effects s) = []
  else allText s = scrapedText artoo /\
       selectorsOf (effects s) = scrapedSelectors artoo /\
       bodyOf (summarizeCall s) = Some (JsString (scrapedText artoo)).

(** No paragraph; every heading level from 0 to 6 has one heading. *)
Definition everyHeading : Artoo :=
  fun selector =>
    if String.eqb selector "p" then Scraped []
    else Scraped [("text of " ++ selector)%string].

(** No paragraph; [artoo.scrape] throws on [h2]. *)
Definition brokenAtH2 : Artoo :=
  fun selector =>
    if String.eqb selector "p" then Scraped []
    else if String.eqb selector "h2" then Throws (JsString "scrape failed")
    else Scraped [("text of " ++ selector)%string].

(** A run to the end: the summary comes back, the classify call rejects, and
    one more tick clears the interval. *)
Definition untilDone : list Event :=
  [Timeout; Tick;
   Reply Summarize (Fulfilled (mkResponse 200 (JsString "summary")));
   Tick;
   Reply Classify (Rejected (JsString "offline"));
   Tick].

Definition finished : State :=
  Eval vm_compute in
    match run twoParagraphs untilDone with
    | Some s => s
    | None => init
    end.

(** ** Strings *)

Lemma substring_length_le (n : nat) (t : string) :
  String.length (substring 0 n t) <= n.
Proof.
  revert t; induction n as [|n IH]; intros [|c t]; simpl; try lia.
  specialize (IH t); lia.
Qed.

(** ** The log only grows *)

Lemma logAll_nil s : logAll [] s = s.
Proof. destruct s; unfold logAll; simpl; now rewrite app_nil_r. Qed.

Lemma logAll_log e l s : logAll l (log e s) = logAll (e :: l) s.
Proof. unfold logAll, log; simpl; now rewrite <- app_assoc. Qed.

Lemma messagesOf_app l1 l2 : messagesOf (l1 ++ l2) = messagesOf l1 ++ messagesOf l2.
Proof.
  induction l1 as [|e l1 IH]; simpl; [reflexivity|].
  destruct e; simpl; now rewrite ?IH.
Qed.

Lemma postsOf_app l1 l2 : postsOf (l1 ++ l2) = postsOf l1 ++ postsOf l2.
Proof.
  induction l1 as [|e l1 IH]; simpl; [reflexivity|].
  destruct e; simpl; now rewrite ?IH.
Qed.

Lemma selectorsOf_app l1 l2 : selectorsOf (l1 ++ l2) = selectorsOf l1 ++ selectorsOf l2.
Proof.
  induction l1 as [|e l1 IH]; simpl; [reflexivity|].
  destruct e; simpl; now rewrite ?IH.
Qed.

Lemma messagesOf_scrapes sels : messagesOf (map Scrape sels) = [].
Proof. induction sels; simpl; auto. Qed.

Lemma postsOf_scrapes sels : postsOf (map Scrape sels) = [].
Proof. induction sels; simpl; auto. Qed.

Lemma selectorsOf_scrapes sels : selectorsOf (map Scrape sels) = sels.
Proof. induction sels; simpl; congruence. Qed.

(** ** The text extraction, read off the code *)

Lemma headingLoop_eq artoo count : forall i scraped s,
  headingLoop artoo count i scraped s =
  (headingFragments artoo count i scraped,
   logAll (map Scrape (headingSelectors artoo count i)) s).
Proof.
  induction count as [|count IH]; intros i scraped s; simpl.
  - now rewrite logAll_nil.
  - unfold bind, artooScrape, assign, bind.
    destruct (artoo (String "h" (toString i))) as [fragments|e]; simpl.
    + unfold ret. rewrite IH. now rewrite logAll_log.
    + unfold throw. unfold logAll, log; simpl. reflexivity.
Qed.

Lemma cut_length t : String.length (cut t) <= NN.
Proof.
  unfold cut. destruct (Nat.ltb NN (String.length t)) eqn:E.
  - apply substring_length_le.
  - apply Nat.ltb_ge in E. exact E.
Qed.

Lemma extractText_eq artoo s :
  extractText artoo s =
  match extractOutcome artoo with
  | Normal t =>
      (Normal tt, set_allText t (logAll (map Scrape (scrapedSelectors artoo)) s))
  | Thrown e => (Thrown e, logAll (map Scrape (scrapedSelectors artoo)) s)
  end.
Proof.
  unfold extractText, extractOutcome, scrapedSelectors.
  unfold bind at 1. unfold artooScrape at 1. unfold bind at 1, assign at 1.
  destruct (artoo "p") as [[|f fragments]|e].
  - unfold ret at 1. cbv beta iota. change (Nat.eqb (List.length []) 0) with true.
    cbv beta iota. unfold bind at 1. rewrite headingLoop_eq.
    destruct (headingFragments artoo 6 0 []) as [fragments|e].
    + unfold bind, assign, read, ret, cut. rewrite logAll_log.
      cbn [allText set_allText map].
      destruct (Nat.ltb NN (String.length (join separator fragments))); reflexivity.
    + now rewrite logAll_log.
  - unfold ret at 1. cbv beta iota.
    change (Nat.eqb (List.length (f :: fragments)) 0) with false.
    unfold ret, bind, assign, read, cut. cbn [allText set_allText map].
    destruct (Nat.ltb NN _); reflexivity.
  - unfold throw. reflexivity.
Qed.

Lemma scrapeAll_eq artoo s :
  scrapeAll artoo s =
  (Normal tt,
   set_allText (scrapedText artoo) (logAll (map Scrape (scrapedSelectors artoo)) s)).
Proof.
  unfold scrapeAll, tryCatch, scrapedText. rewrite extractText_eq.
  destruct (extractOutcome artoo); reflexivity.
Qed.

Lemma scrapedText_length artoo : String.length (scrapedText artoo) <= NN.
Proof.
  unfold scrapedText, extractOutcome.
  destruct (artoo "p") as [[|f fragments]|e]; try apply cut_length; try (simpl; lia).
  destruct (headingFragments artoo 6 0 []); try apply cut_length. simpl; lia.
Qed.

Lemma timeoutCallback_eq artoo s :
  timeoutCallback artoo s =
  (Normal tt,
   set_call Summarize (InFlight (JsString (scrapedText artoo)))
     (set_allText (scrapedText artoo)
        (logAll (map Scrape (scrapedSelectors artoo) ++
                 [Post Summarize (JsString (scrapedText artoo))]) s))).
Proof.
  unfold timeoutCallback. unfold bind at 1. rewrite scrapeAll_eq.
  unfold bind, read, axiosPost, assign, logAll, log, set_call, set_allText; simpl.
  now rewrite <- app_assoc.
Qed.

Lemma timeoutCallback_normal artoo s : fst (timeoutCallback artoo s) = Normal tt.
Proof. now rewrite timeoutCallback_eq. Qed.

Lemma timeoutCallback_sent artoo s : sent (snd (timeoutCallback artoo s)) = sent s.
Proof.
  rewrite timeoutCallback_eq. unfold sent, set_call, set_allText, logAll.
  cbn [snd effects]. rewrite !messagesOf_app, messagesOf_scrapes. simpl.
  now rewrite app_nil_r.
Qed.

(** ** The invariant of the event loop *)

Lemma string_app_assoc (a b c : string) : ((a ++ b) ++ c = a ++ (b ++ c))%string.
Proof. induction a as [|x a IH]; simpl; [reflexivity | now rewrite IH]. Qed.

Lemma Inv_init : Inv init.
Proof.
  constructor; simpl; auto; try (now exists 0).
  exact I.
Qed.

Ltac dots_finish n m :=
  solve [ exists n; reflexivity | exists (S n); reflexivity
        | exists m; reflexivity | exists (S m); reflexivity ].

Ltac inv_finish :=
  repeat match goal with
         | |- _ /\ _ => split
         | |- chained _ => unfold chained; simpl
         | _ => progress (rewrite ?postsOf_app, ?postsOf_scrapes, ?app_nil_r; simpl)
         | _ => solve [auto | congruence | discriminate | intuition congruence]
         | H : postsOf ?ef = _ |- context [postsOf ?ef] => rewrite H; simpl
         end.

Lemma Inv_step artoo s ev s' : Inv s -> step artoo s ev = Some s' -> Inv s'.
Proof.
  intros [Hu Ht Hs Hc Hch Hi [n Hn] [m Hm] Hp] Hstep.
  unfold step in Hstep.
  destruct (enabled s ev) eqn:En; [|discriminate].
  destruct ev as [| |[|] r].
  - (* Tick *)
    destruct s as [hs bst hc bct at_ ia tp sc cc ef un]; simpl in *; subst.
    unfold intervalCallback, bind, read, when, assign, sendMessage, clearInterval,
      ret in Hstep; simpl in Hstep.
    destruct (settled sc) eqn:Esc;
      destruct (settled cc || callFailed sc) eqn:Ecc; simpl in Hstep;
      injection Hstep as <-; constructor; simpl; try dots_finish n m; inv_finish.
  - (* Timeout *)
    simpl in En. cbn [callback deliver] in Hstep.
    rewrite timeoutCallback_eq in Hstep. injection Hstep as <-.
    destruct s as [hs bst hc bct at_ ia tp sc cc ef un]; simpl in *; subst.
    destruct sc; try discriminate. destruct cc; simpl in Hch; try contradiction.
    constructor; simpl; try dots_finish n m; inv_finish.
  - (* the summarize call settles *)
    destruct s as [hs bst hc bct at_ ia tp sc cc ef un]; simpl in *; subst.
    destruct sc as [|body|]; try discriminate.
    destruct cc; simpl in Hch; try contradiction.
    destruct r as [res|e]; unfold thenCatch, tryCatch, summarizeThen, summarizeCatch,
      bind, assign, sendMessage, consoleError, axiosPost, throw in Hstep;
      simpl in Hstep.
    + destruct (Z.eqb (status res) 200) eqn:Est; simpl in Hstep;
        injection Hstep as <-; constructor; simpl; try rewrite Est;
        try dots_finish n m; inv_finish.
      unfold chained; simpl. apply Z.eqb_eq in Est. auto.
    + injection Hstep as <-; constructor; simpl; try dots_finish n m; inv_finish.
  - (* the classify call settles *)
    destruct s as [hs bst hc bct at_ ia tp sc cc ef un]; simpl in *; subst.
    destruct cc as [|body|]; try discriminate.
    unfold chained in Hch; simpl in Hch.
    destruct sc as [| |sbody [sres|]]; try contradiction.
    destruct Hch as [Hst Hbody].
    destruct r as [res|e]; unfold thenCatch, tryCatch, classifyThen, classifyCatch,
      bind, assign, sendMessage, consoleError, throw in Hstep; simpl in Hstep.
    + destruct (Z.eqb (status res) 200) eqn:Est; simpl in Hstep;
        injection Hstep as <-; constructor; simpl in *; try dots_finish n m;
        inv_finish; unfold chained; simpl; auto.
    + injection Hstep as <-; constructor; simpl in *; try dots_finish n m; inv_finish;
        unfold chained; simpl; auto.
Qed.

Lemma Inv_runFrom artoo evs : forall s s',
  Inv s -> runFrom artoo s evs = Some s' -> Inv s'.
Proof.
  induction evs as [|ev evs IH]; simpl; intros s s' HI Hrun.
  - now injection Hrun as <-.
  - destruct (step artoo s ev) as [s1|] eqn:Est; [|discriminate].
    eapply IH; [eapply Inv_step; eassumption | exact Hrun].
Qed.

Lemma Inv_run artoo evs s : run artoo evs = Some s -> Inv s.
Proof. apply Inv_runFrom, Inv_init. Qed.

(** X10.  In every run no exception leaves a callback: whatever [artoo]
    throws and however the two calls settle, nothing is left for the host to
    report. *)
Lemma nothing_escapes artoo evs s : run artoo evs = Some s -> uncaught s = [].
Proof. intros Hrun. apply Inv_run in Hrun. apply Hrun. Qed.

(** ** Truncation *)

Example long_page_is_cut :
  Nat.eqb (String.length (allText (snd (timeoutCallback longPage init)))) NN = true.
Proof. vm_compute. reflexivity. Qed.

(** C4.  Whatever [artoo] scrapes, the text left in [allText] by the [try]
    block and its [catch] has at most [NN] characters, and the request the
    timeout callback posts to the summarize endpoint carries exactly that
    text. *)
Theorem posted_text_within_cap (artoo : Artoo) (s : State) :
  let extracted := snd (scrapeAll artoo s) in
  let posted := snd (timeoutCallback artoo s) in
  String.length (allText extracted) <= NN /\
  postsOf (effects posted) =
    postsOf (effects s) ++ [(Summarize, JsString (allText extracted))].
Proof.
  rewrite scrapeAll_eq, timeoutCallback_eq.
  cbn [snd allText set_allText effects set_call logAll].
  split.
  - apply scrapedText_length.
  - now rewrite !postsOf_app, postsOf_scrapes.
Qed.

(** ** Paragraphs first, headings as the fallback *)

Lemma headingSelectors_headings artoo count : forall i,
  Forall isHeadingSelector (headingSelectors artoo count i).
Proof.
  induction count as [|count IH]; intros i; simpl; constructor.
  - now exists i.
  - destruct (artoo (String "h" (toString i))); [apply IH | constructor].
Qed.

Example twoParagraphs_text :
  allText (snd (scrapeAll twoParagraphs init))
    = String "a" (String " " (String "010" (String "b" EmptyString))) /\
  specText twoParagraphs = String "a" (String "010" (String "b" EmptyString)).
Proof. vm_compute. split; reflexivity. Qed.

Example headingsOnly_text :
  selectorsOf (effects (snd (scrapeAll headingsOnly init)))
    = ["p"; "h0"; "h1"; "h2"; "h3"; "h4"; "h5"] /\
  allText (snd (scrapeAll headingsOnly init)) = EmptyString /\
  specText headingsOnly = ("Section" ++ lineFeed ++ "Title")%string.
Proof. vm_compute. repeat split. Qed.

(** C5, as stated, fails.  On a page with the two paragraphs "a" and "b" the
    script leaves "a", a space, a line feed, "b" in [allText], not "a", a
    line feed, "b".  On a page without paragraphs whose only headings are an
    [h3] and an [h6], the script never asks for [h6], and the [h3] text it
    scraped is overwritten by the empty results for [h4] and [h5], so
    [allText] is empty. *)
Lemma newline_join_and_heading_levels_refuted :
  allText (snd (scrapeAll twoParagraphs init)) <> specText twoParagraphs /\
  allText (snd (scrapeAll headingsOnly init)) <> specText headingsOnly /\
  ~ In "h6"%string (selectorsOf (effects (snd (scrapeAll headingsOnly init)))).
Proof.
  split; [|split].
  - vm_compute. discriminate.
  - vm_compute. discriminate.
  - vm_compute. intros H. repeat (destruct H as [H|H]; [discriminate|]). exact H.
Qed.

(** C5, amended.  When [artoo.scrape ('p', 'text')] returns, the script
    asks for heading selectors after it if and only if it returned no
    fragment; when it returned fragments, [allText] is those fragments
    joined by the separator (space, line feed), cut to [NN]. *)
Theorem paragraphs_before_headings (artoo : Artoo) (s : State)
    (fragments : list string) :
  artoo "p" = Scraped fragments ->
  let s' := snd (scrapeAll artoo s) in
  exists headings,
    selectorsOf (effects s') = selectorsOf (effects s) ++ "p" :: headings /\
    Forall isHeadingSelector headings /\
    (headings <> [] <-> fragments = []) /\
    (fragments <> [] ->
     allText s' =
       let joined := join separator fragments in
       if Nat.ltb NN (String.length joined) then substring 0 NN joined else joined).
Proof.
  intros Hp. rewrite scrapeAll_eq.
  cbn [snd allText set_allText effects logAll].
  rewrite selectorsOf_app, selectorsOf_scrapes.
  unfold scrapedSelectors, scrapedText, extractOutcome. rewrite Hp.
  destruct fragments as [|f fragments].
  - exists (headingSelectors artoo 6 0). split; [reflexivity|]. split; [|split].
    + apply headingSelectors_headings.
    + split; [reflexivity | discriminate].
    + intros H; now contradiction H.
  - exists []. split; [reflexivity|]. split; [constructor|]. split.
    + split; [intros H; now contradiction H | discriminate].
    + reflexivity.
Qed.

Lemma paragraphs_before_headings_witness :
  exists headings,
    selectorsOf (effects (snd (scrapeAll twoParagraphs init)))
      = selectorsOf (effects init) ++ "p" :: headings /\
    Forall isHeadingSelector headings /\
    (headings <> [] <-> ["a"; "b"] = []) /\
    (["a"; "b"] <> [] ->
     allText (snd (scrapeAll twoParagraphs init)) =
       let joined := join separator ["a"; "b"] in
       if Nat.ltb NN (String.length joined) then substring 0 NN joined else joined).
Proof.
  apply (paragraphs_before_headings twoParagraphs init ["a"; "b"]).
  reflexivity.
Defined.

(** ** A failing scrape *)

(** C10.  If the body of the [try] block throws, the timeout callback still
    completes: [allText] is the empty string, the summarize request is posted
    with that empty text and is awaiting its reply, no message is sent and no
    exception leaves the callback. *)
Theorem scrape_failure_still_posts (artoo : Artoo) (s : State) (e : JsValue) :
  timeoutPending s = true ->
  fst (extractText artoo s) = Thrown e ->
  exists s',
    step artoo s Timeout = Some s' /\
    allText s' = EmptyString /\
    summarizeCall s' = InFlight (JsString EmptyString) /\
    postsOf (effects s') = postsOf (effects s) ++ [(Summarize, JsString EmptyString)] /\
    sent s' = sent s /\
    uncaught s' = uncaught s.
Proof.
  intros Hpending Hthrow.
  rewrite extractText_eq in Hthrow.
  assert (Htext : scrapedText artoo = EmptyString).
  { unfold scrapedText. destruct (extractOutcome artoo); [discriminate | reflexivity]. }
  unfold step. cbn [enabled callback deliver]. rewrite Hpending.
  rewrite timeoutCallback_eq, Htext.
  eexists; split; [reflexivity|].
  unfold sent. cbn [allText summarizeCall effects uncaught set_call set_allText logAll
                    set_timeoutPending].
  rewrite !postsOf_app, !messagesOf_app, postsOf_scrapes, messagesOf_scrapes.
  simpl. rewrite app_nil_r. repeat split; reflexivity.
Qed.

Lemma scrape_failure_still_posts_witness :
  exists s',
    step brokenPage init Timeout = Some s' /\
    allText s' = EmptyString /\
    summarizeCall s' = InFlight (JsString EmptyString) /\
    postsOf (effects s') = postsOf (effects init) ++ [(Summarize, JsString EmptyString)] /\
    sent s' = sent init /\
    uncaught s' = uncaught init.
Proof.
  apply (scrape_failure_still_posts brokenPage init (JsString "scrape failed"));
    reflexivity.
Defined.

(** ** HTTP failures *)

(** C6.  When the reply to a call that is awaiting one is a failure (the
    promise rejects, or fulfils with a status other than 200), the callback
    completes without an exception leaving it and sends the fixed fallback
    texts: for the summarize call the Summary fallback followed by the
    Classification fallback, with no classify request issued; for the
    classify call the Classification fallback. *)
Theorem http_failure_relays_fallback (artoo : Artoo) (s : State) (ep : Endpoint)
    (r : Settlement) :
  inFlight (call ep s) = true ->
  failed r = true ->
  exists s',
    step artoo s (Reply ep r) = Some s' /\
    sent s' = sent s ++
      match ep with
      | Summarize =>
          [mkMessage "Summary" (JsString summaryFallback);
           mkMessage "Classification" (JsString classificationFallback)]
      | Classify =>
          [mkMessage "Classification" (JsString classificationFallback)]
      end /\
    postsOf (effects s') = postsOf (effects s) /\
    uncaught s' = uncaught s /\
    haveClassification s' = true /\
    (ep = Summarize -> haveSummary s' = true).
Proof.
  intros Hfly Hfail.
  destruct s as [hs bst hc bct at_ ia tp sc cc ef un].
  unfold step, sent. cbn [enabled]. rewrite Hfly.
  destruct ep; simpl in Hfly; cbn [callback deliver call].
  - destruct sc as [|body|]; try discriminate.
    destruct r as [res|e]; unfold failed in Hfail.
    + unfold thenCatch, tryCatch, summarizeThen, bind, assign, sendMessage.
      destruct (Z.eqb (status res) 200); [discriminate|]; simpl.
      eexists; split; [reflexivity|]; simpl.
      rewrite !messagesOf_app, !postsOf_app, <- !app_assoc; simpl.
      rewrite !app_nil_r. repeat split; reflexivity.
    + unfold thenCatch, tryCatch, summarizeCatch, bind, assign, sendMessage,
        consoleError, throw; simpl.
      eexists; split; [reflexivity|]; simpl.
      rewrite !messagesOf_app, !postsOf_app, <- !app_assoc; simpl.
      rewrite !app_nil_r. repeat split; reflexivity.
  - destruct cc as [|body|]; try discriminate.
    destruct r as [res|e]; unfold failed in Hfail.
    + unfold thenCatch, tryCatch, classifyThen, bind, assign, sendMessage.
      destruct (Z.eqb (status res) 200); [discriminate|]; simpl.
      eexists; split; [reflexivity|]; simpl.
      rewrite !messagesOf_app, !postsOf_app; simpl.
      rewrite !app_nil_r. repeat split; try reflexivity. discriminate.
    + unfold thenCatch, tryCatch, classifyCatch, bind, assign, sendMessage,
        consoleError, throw; simpl.
      eexists; split; [reflexivity|]; simpl.
      rewrite !messagesOf_app, !postsOf_app, <- !app_assoc; simpl.
      rewrite !app_nil_r. repeat split; try reflexivity. discriminate.
Qed.

Lemma http_failure_relays_fallback_witness :
  exists s',
    step twoParagraphs awaitingSummary (Reply Summarize (Rejected JsNull)) = Some s' /\
    sent s' = sent awaitingSummary ++
      [mkMessage "Summary" (JsString summaryFallback);
       mkMessage "Classification" (JsString classificationFallback)] /\
    postsOf (effects s') = postsOf (effects awaitingSummary) /\
    uncaught s' = uncaught awaitingSummary /\
    haveClassification s' = true /\
    (Summarize = Summarize -> haveSummary s' = true).
Proof.
  apply (http_failure_relays_fallback twoParagraphs awaitingSummary Summarize
           (Rejected JsNull)); reflexivity.
Defined.

(** ** The two calls are chained *)

Lemma step_issues_classify artoo s ev s' :
  step artoo s ev = Some s' ->
  classifyCall s = Idle ->
  classifyCall s' <> Idle ->
  exists res,
    ev = Reply Summarize (Fulfilled res) /\
    status res = 200%Z /\
    classifyCall s' = InFlight (data res).
Proof.
  intros Hstep Hidle Hissued.
  unfold step in Hstep. destruct (enabled s ev) eqn:En; [|discriminate].
  destruct ev as [| |[|] r].
  - destruct s as [hs bst hc bct at_ ia tp sc cc ef un]; simpl in *; subst.
    unfold intervalCallback, bind, read, when, assign, sendMessage, clearInterval,
      ret in Hstep; simpl in Hstep.
    destruct hs, hc; simpl in Hstep; injection Hstep as <-; now contradiction Hissued.
  - cbn [callback deliver] in Hstep. rewrite timeoutCallback_eq in Hstep.
    injection Hstep as <-. simpl in Hissued. now contradiction Hissued.
  - destruct s as [hs bst hc bct at_ ia tp sc cc ef un]; simpl in *; subst.
    destruct sc as [|body|]; try discriminate.
    destruct r as [res|e].
    + unfold thenCatch, tryCatch, summarizeThen, bind, assign, sendMessage,
        axiosPost in Hstep.
      destruct (Z.eqb (status res) 200) eqn:Est; simpl in Hstep;
        injection Hstep as <-; simpl in Hissued.
      * exists res. apply Z.eqb_eq in Est. auto.
      * now contradiction Hissued.
    + unfold thenCatch, tryCatch, summarizeCatch, bind, assign, sendMessage,
        consoleError, throw in Hstep; simpl in Hstep.
      injection Hstep as <-. now contradiction Hissued.
  - destruct s as [hs bst hc bct at_ ia tp sc cc ef un]; simpl in *; subst.
    discriminate.
Qed.

(** C7.  In every state the event loop can reach: a classify request that
    has been issued carries the [data] of a summarize response that came
    back with status 200, and the summarize call is settled by then; the two
    calls are never awaiting their replies at the same time; the log holds at
    most one request per endpoint, the summarize one first; and the only
    callback that issues the classify request is the one run for a fulfilled
    summarize call with status 200, which posts that response's [data]. *)
Theorem classify_follows_summarize (artoo : Artoo) (evs : list Event) (s : State) :
  run artoo evs = Some s ->
  (forall body, bodyOf (classifyCall s) = Some body ->
     exists sent_text res,
       summarizeCall s = Settled sent_text (Fulfilled res) /\
       status res = 200%Z /\ body = data res) /\
  inFlight (summarizeCall s) && inFlight (classifyCall s) = false /\
  postsOf (effects s) =
    issued Summarize (summarizeCall s) ++ issued Classify (classifyCall s) /\
  (forall ev s',
     step artoo s ev = Some s' ->
     classifyCall s = Idle ->
     classifyCall s' <> Idle ->
     exists res,
       ev = Reply Summarize (Fulfilled res) /\
       status res = 200%Z /\
       classifyCall s' = InFlight (data res)).
Proof.
  intros Hrun. apply Inv_run in Hrun.
  destruct Hrun as [_ _ _ _ Hch _ _ _ Hp].
  unfold chained in Hch.
  split; [|split; [|split]].
  - intros body Hbody.
    destruct (classifyCall s) as [|b|b r]; simpl in Hbody; try discriminate;
      injection Hbody as ->;
      destruct (summarizeCall s) as [| |t [res|]]; try contradiction;
      exists t, res; tauto.
  - destruct (classifyCall s); simpl; try apply andb_false_r.
    destruct (summarizeCall s) as [| |t [res|]]; try contradiction. reflexivity.
  - exact Hp.
  - intros ev s'. apply step_issues_classify.
Qed.

Lemma classify_follows_summarize_witness :
  exists s,
    run twoParagraphs
      [Timeout; Reply Summarize (Fulfilled (mkResponse 200 (JsString "summary")))]
      = Some s /\
    classifyCall s = InFlight (JsString "summary") /\
    inFlight (summarizeCall s) && inFlight (classifyCall s) = false.
Proof.
  eexists. split; [reflexivity|]. split; [reflexivity|].
  exact (proj1 (proj2
    (classify_follows_summarize twoParagraphs
       [Timeout; Reply Summarize (Fulfilled (mkResponse 200 (JsString "summary")))]
       _ eq_refl))).
Defined.

(** ** Progress messages and the end of the timer *)

(** Once both flags are set, nothing but the interval timer is due. *)
Lemma done_enabled s ev :
  Inv s -> haveSummary s && haveClassification s = true ->
  enabled s ev = true -> ev = Tick /\ intervalActive s = true.
Proof.
  intros [_ Ht Hs Hc Hch _ _ _ _] Hdone Hen.
  apply andb_true_iff in Hdone as [Hhs Hhc].
  rewrite Hs in Hhs. rewrite Hc in Hhc.
  unfold chained in Hch.
  destruct ev as [| |[|] r]; simpl in Hen.
  - auto.
  - rewrite Ht in Hen. destruct (summarizeCall s); discriminate.
  - destruct (summarizeCall s); discriminate.
  - destruct (classifyCall s) as [|body|]; try discriminate.
    destruct (summarizeCall s) as [| |t [res|]]; try contradiction.
    destruct Hch as [Hst _]. simpl in Hhc. rewrite Hst in Hhc. discriminate.
Qed.

Lemma done_tick artoo s s' :
  haveSummary s && haveClassification s = true ->
  step artoo s Tick = Some s' ->
  s' = log ClearInterval (set_intervalActive false s).
Proof.
  intros Hdone Hstep. apply andb_true_iff in Hdone as [Hhs Hhc].
  unfold step in Hstep. destruct (enabled s Tick); [|discriminate].
  destruct s as [hs bst hc bct at_ ia tp sc cc ef un]; simpl in *; subst.
  unfold intervalCallback, bind, read, when, assign, clearInterval in Hstep.
  simpl in Hstep. now injection Hstep as <-.
Qed.

Lemma done_runFrom artoo s evs s' :
  Inv s -> haveSummary s && haveClassification s = true ->
  runFrom artoo s evs = Some s' ->
  (evs = [] /\ s' = s) \/
  (evs = [Tick] /\ s' = log ClearInterval (set_intervalActive false s)).
Proof.
  intros HI Hdone Hrun.
  destruct evs as [|ev evs]; simpl in Hrun.
  - left. now injection Hrun as <-.
  - right. destruct (step artoo s ev) as [s1|] eqn:Est; [|discriminate].
    assert (Hen : enabled s ev = true).
    { unfold step in Est. destruct (enabled s ev); [reflexivity | discriminate]. }
    destruct (done_enabled s ev HI Hdone Hen) as [-> _].
    pose proof (done_tick artoo s s1 Hdone Est) as ->.
    destruct evs as [|ev' evs]; simpl in Hrun.
    + now injection Hrun as <-.
    + exfalso.
      destruct (step artoo _ ev') as [s2|] eqn:Est'; [|discriminate].
      assert (Hen' : enabled (log ClearInterval (set_intervalActive false s)) ev' = true).
      { unfold step in Est'. destruct (enabled _ ev'); [reflexivity | discriminate]. }
      apply done_enabled in Hen' as [_ Hactive].
      * simpl in Hactive. discriminate.
      * eapply Inv_step; eassumption.
      * exact Hdone.
Qed.

(** C8.  In every state the event loop can reach, [haveSummary] and
    [haveClassification] say exactly whether the summarize leg and the
    classify leg have reached their end (the classify leg ends with its own
    reply or with a failed summarize call), and each base text is its
    initial text followed by some number of dots.  While a flag is still
    clear the interval timer is registered, and its tick sends, for each
    leg still open, one message whose text is that leg's base text with one
    more dot, which becomes the new base text.  Once both flags are set, all
    that can still run is one tick: it sends nothing and clears the
    interval, so no message is ever sent again. *)
Theorem progress_until_both_done (artoo : Artoo) (evs : list Event) (s : State) :
  run artoo evs = Some s ->
  (haveSummary s = settled (summarizeCall s) /\
   haveClassification s =
     settled (classifyCall s) || callFailed (summarizeCall s)) /\
  (exists n m,
     baseSummaryText s = (initialSummaryText ++ dots n)%string /\
     baseClassificationText s = (initialClassificationText ++ dots m)%string) /\
  (haveSummary s && haveClassification s = false ->
   exists s',
     step artoo s Tick = Some s' /\
     sent s' = sent s ++
       (if haveSummary s then []
        else [mkMessage "Summary" (JsString (baseSummaryText s ++ "."))]) ++
       (if haveClassification s then []
        else [mkMessage "Classification"
                (JsString (baseClassificationText s ++ "."))]) /\
     baseSummaryText s' =
       (if haveSummary s then baseSummaryText s
        else baseSummaryText s ++ ".")%string /\
     baseClassificationText s' =
       (if haveClassification s then baseClassificationText s
        else baseClassificationText s ++ ".")%string /\
     intervalActive s' = true) /\
  (haveSummary s && haveClassification s = true ->
   forall evs' s',
     runFrom artoo s evs' = Some s' ->
     sent s' = sent s /\
     (evs' = [] \/
      evs' = [Tick] /\ intervalActive s' = false /\
      effects s' = effects s ++ [ClearInterval])).
Proof.
  intros Hrun. apply Inv_run in Hrun. pose proof Hrun as HI.
  destruct Hrun as [_ _ Hs Hc _ Hi [n Hn] [m Hm] _].
  split; [auto|]. split; [now exists n, m|]. split.
  - intros Hopen. specialize (Hi Hopen). clear Hs Hc Hn Hm HI.
    destruct s as [hs bst hc bct at_ ia tp sc cc ef un]; simpl in *; subst.
    unfold step, sent; simpl.
    unfold intervalCallback, bind, read, when, assign, sendMessage, ret; simpl.
    destruct hs, hc; try discriminate; simpl;
      (eexists; split; [reflexivity|]; simpl;
       rewrite ?messagesOf_app, <- ?app_assoc; simpl; auto).
  - intros Hdone evs' s' Hrun'.
    destruct (done_runFrom artoo s evs' s' HI Hdone Hrun') as [[-> ->]|[-> ->]].
    + auto.
    + split.
      * unfold sent; simpl. rewrite messagesOf_app; simpl. apply app_nil_r.
      * right. auto.
Qed.

Lemma run_untilClassifying :
  run twoParagraphs untilClassifying = Some awaitingClassification.
Proof. vm_compute. reflexivity. Qed.

Lemma progress_until_both_done_witness :
  haveSummary awaitingClassification && haveClassification awaitingClassification
    = false /\
  exists s',
    step twoParagraphs awaitingClassification Tick = Some s' /\
    sent s' = sent awaitingClassification ++
      [mkMessage "Classification" (JsString "Classifying .....")].
Proof.
  split; [reflexivity|].
  destruct (proj1 (proj2 (proj2
    (progress_until_both_done twoParagraphs untilClassifying awaitingClassification
       run_untilClassifying))) eq_refl) as [s' [Hstep [Hsent _]]].
  exists s'. split; [exact Hstep | exact Hsent].
Defined.

(** ** The shape of the messages *)

Lemma shaped_incl evs evs' m :
  incl evs evs' -> shaped evs m -> shaped evs' m.
Proof.
  intros Hincl [Ht [Hs|(ep & res & Hin & Hrest)]]; split; auto.
  right. exists ep, res. split; [apply Hincl, Hin | exact Hrest].
Qed.

Ltac shaped_text := solve [split; [simpl; auto | left; reflexivity]].

(** Reads the new messages off a computed step and leaves the relayed ones. *)
Ltac sent_after H :=
  injection H as <-; unfold sent; simpl;
  rewrite ?messagesOf_app; simpl; rewrite <- ?app_assoc; simpl;
  eexists; (split; [reflexivity|]);
  repeat (apply Forall_cons || apply Forall_nil); try shaped_text.

Ltac relayed_by ep res E :=
  split; [simpl; auto|]; right; exists ep, res; apply Z.eqb_eq in E; simpl; auto.

Lemma step_sent artoo s ev s' :
  step artoo s ev = Some s' ->
  exists new, sent s' = sent s ++ new /\ Forall (shaped [ev]) new.
Proof.
  intros Hstep. unfold step in Hstep.
  destruct (enabled s ev) eqn:En; [|discriminate].
  destruct ev as [| |[|] r].
  - destruct s as [hs bst hc bct at_ ia tp sc cc ef un]; simpl in *; subst.
    unfold intervalCallback, bind, read, when, assign, sendMessage, clearInterval,
      ret in Hstep; simpl in Hstep.
    destruct hs, hc; simpl in Hstep; sent_after Hstep.
  - cbn [callback deliver] in Hstep.
    pose proof (timeoutCallback_sent artoo (set_timeoutPending false s)) as Hsent.
    pose proof (timeoutCallback_normal artoo (set_timeoutPending false s)) as Hnormal.
    destruct (timeoutCallback artoo (set_timeoutPending false s)) as [o s1].
    simpl in Hsent, Hnormal. subst o. injection Hstep as <-.
    exists []. split; [|constructor]. now rewrite app_nil_r.
  - destruct s as [hs bst hc bct at_ ia tp sc cc ef un]; simpl in *; subst.
    destruct sc as [|body|]; try discriminate.
    destruct r as [res|e].
    + unfold thenCatch, tryCatch, summarizeThen, bind, assign, sendMessage,
        axiosPost in Hstep.
      destruct (Z.eqb (status res) 200) eqn:Est; simpl in Hstep; sent_after Hstep.
      relayed_by Summarize res Est.
    + unfold thenCatch, tryCatch, summarizeCatch, bind, assign, sendMessage,
        consoleError, throw in Hstep; simpl in Hstep.
      sent_after Hstep.
  - destruct s as [hs bst hc bct at_ ia tp sc cc ef un]; simpl in *; subst.
    destruct cc as [|body|]; try discriminate.
    destruct r as [res|e].
    + unfold thenCatch, tryCatch, classifyThen, bind, assign, sendMessage in Hstep.
      destruct (Z.eqb (status res) 200) eqn:Est; simpl in Hstep; sent_after Hstep.
      relayed_by Classify res Est.
    + unfold thenCatch, tryCatch, classifyCatch, bind, assign, sendMessage,
        consoleError, throw in Hstep; simpl in Hstep.
      sent_after Hstep.
Qed.

Lemma runFrom_sent artoo evs : forall s s',
  runFrom artoo s evs = Some s' ->
  exists new, sent s' = sent s ++ new /\ Forall (shaped evs) new.
Proof.
  induction evs as [|ev evs IH]; simpl; intros s s' Hrun.
  - injection Hrun as <-. exists []. now rewrite app_nil_r.
  - destruct (step artoo s ev) as [s1|] eqn:Est; [|discriminate].
    destruct (step_sent _ _ _ _ Est) as (new1 & Hs1 & Hf1).
    destruct (IH _ _ Hrun) as (new2 & Hs2 & Hf2).
    exists (new1 ++ new2). split.
    + now rewrite Hs2, Hs1, app_assoc.
    + apply Forall_app. split.
      * eapply Forall_impl; [|exact Hf1]. intros m. apply shaped_incl.
        intros x [<-|[]]. now left.
      * eapply Forall_impl; [|exact Hf2]. intros m. apply shaped_incl.
        intros x Hx. now right.
Qed.

(** C9, as stated, fails.  When the summarize service answers with status
    200 and the number 42 as its data, the script sends a Summary message
    whose [text] is that number, not a string. *)
Lemma relayed_text_not_a_string :
  exists s m,
    run twoParagraphs
      [Timeout; Reply Summarize (Fulfilled (mkResponse 200 (JsNumber 42)))] = Some s /\
    In m (sent s) /\
    type m = "Summary" /\ text m = JsNumber 42 /\ isString (text m) = false.
Proof.
  eexists. exists (mkMessage "Summary" (JsNumber 42)).
  split; [reflexivity|]. split; [|repeat split]. vm_compute. now left.
Qed.

(** C9, amended.  Every message sent in a run has [type] "Summary" or
    "Classification", and its [text] is either a string (every progress and
    fallback message) or the [data] of a response with status 200 delivered
    in that run, relayed unchanged under the label of its endpoint.  So when
    every such response carries a string, every [text] is a string. *)
Theorem messages_have_shape (artoo : Artoo) (evs : list Event) (s : State) :
  run artoo evs = Some s ->
  Forall
    (fun m =>
       (type m = "Summary" \/ type m = "Classification") /\
       (isString (text m) = true \/
        exists ep res,
          In (Reply ep (Fulfilled res)) evs /\
          status res = 200%Z /\ type m = label ep /\ text m = data res))
    (sent s) /\
  ((forall ep res,
      In (Reply ep (Fulfilled res)) evs -> status res = 200%Z ->
      isString (data res) = true) ->
   Forall (fun m => isString (text m) = true) (sent s)).
Proof.
  intros Hrun. destruct (runFrom_sent _ _ _ _ Hrun) as (new & Hs & Hf).
  simpl in Hs. subst new.
  split; [exact Hf|].
  intros Hdata. eapply Forall_impl; [|exact Hf].
  intros m [_ [Hstr|(ep & res & Hin & Hst & _ & Htext)]]; [exact Hstr|].
  rewrite Htext. now apply (Hdata ep res).
Qed.

Lemma messages_have_shape_witness :
  Forall (fun m => isString (text m) = true) (sent awaitingClassification).
Proof.
  apply (proj2 (messages_have_shape twoParagraphs untilClassifying
                  awaitingClassification run_untilClassifying)).
  intros ep res [H|[H|[H|[]]]]; try discriminate.
  injection H as <- <-. reflexivity.
Defined.

(** ** One turn of the loop, event by event *)

Lemma run_untilDone : run twoParagraphs untilDone = Some finished.
Proof. vm_compute. reflexivity. Qed.

Lemma errorsOf_app l1 l2 : errorsOf (l1 ++ l2) = errorsOf l1 ++ errorsOf l2.
Proof.
  induction l1 as [|e l1 IH]; simpl; [reflexivity|].
  destruct e; simpl; now rewrite ?IH.
Qed.

Lemma errorsOf_scrapes sels : errorsOf (map Scrape sels) = [].
Proof. induction sels; simpl; auto. Qed.

Lemma step_timeout artoo s s' :
  step artoo s Timeout = Some s' ->
  timeoutPending s = true /\ s' = afterTimeout artoo s.
Proof.
  unfold step. cbn [enabled callback deliver].
  destruct (timeoutPending s); [|discriminate].
  rewrite timeoutCallback_eq. intros H. split; [reflexivity|].
  symmetry. unfold afterTimeout. congruence.
Qed.

Ltac unfold_callbacks H :=
  unfold intervalCallback, thenCatch, tryCatch, summarizeThen, summarizeCatch,
    classifyThen, classifyCatch, bind, read, when, assign, sendMessage,
    consoleError, clearInterval, axiosPost, throw, ret in H.

(** What one turn does to the flags, the base texts, the timers and the
    console. *)
Lemma step_vars artoo s ev s' :
  step artoo s ev = Some s' ->
  haveSummary s' = haveSummary s || endsSummary ev /\
  haveClassification s' = haveClassification s || endsClassification ev /\
  baseSummaryText s' =
    (if isTick ev && negb (haveSummary s)
     then baseSummaryText s ++ "." else baseSummaryText s)%string /\
  baseClassificationText s' =
    (if isTick ev && negb (haveClassification s)
     then baseClassificationText s ++ "." else baseClassificationText s)%string /\
  (intervalActive s' = true -> intervalActive s = true) /\
  (timeoutPending s' = true -> timeoutPending s = true) /\
  errorsOf (effects s') = errorsOf (effects s) ++ rejection ev.
Proof.
  intros Hstep. destruct ev as [| |ep r].
  - unfold step in Hstep. destruct (enabled s Tick) eqn:En; [|discriminate].
    destruct s as [hs bst hc bct at_ ia tp sc cc ef un]; simpl in *; subst.
    unfold_callbacks Hstep. simpl in Hstep.
    destruct hs, hc; simpl in Hstep; injection Hstep as <-; simpl;
      rewrite ?errorsOf_app; simpl; rewrite ?app_nil_r, ?orb_false_r;
      repeat split; auto.
  - apply step_timeout in Hstep as [Hpending ->].
    unfold afterTimeout, set_call, set_allText, logAll, set_timeoutPending.
    cbn [effects haveSummary haveClassification baseSummaryText
         baseClassificationText intervalActive timeoutPending isTick endsSummary
         endsClassification andb orb rejection].
    rewrite !errorsOf_app, errorsOf_scrapes. simpl.
    rewrite ?app_nil_r, ?orb_false_r. repeat split; auto.
  - unfold step in Hstep. destruct (enabled s (Reply ep r)) eqn:En; [|discriminate].
    destruct s as [hs bst hc bct at_ ia tp sc cc ef un]; simpl in *; subst.
    destruct ep; simpl in En.
    + destruct sc as [|body|]; try discriminate.
      destruct r as [res|e]; unfold_callbacks Hstep; unfold failed.
      * destruct (Z.eqb (status res) 200); simpl in Hstep; injection Hstep as <-;
          simpl; rewrite ?errorsOf_app; simpl;
          rewrite ?app_nil_r, ?orb_false_r, ?orb_true_r; repeat split; auto.
      * simpl in Hstep; injection Hstep as <-; simpl; rewrite ?errorsOf_app; simpl;
          rewrite <- ?app_assoc, ?orb_false_r, ?orb_true_r; simpl;
          repeat split; auto.
    + destruct cc as [|body|]; try discriminate.
      destruct r as [res|e]; unfold_callbacks Hstep.
      * destruct (Z.eqb (status res) 200); simpl in Hstep; injection Hstep as <-;
          simpl; rewrite ?errorsOf_app; simpl;
          rewrite ?app_nil_r, ?orb_false_r, ?orb_true_r; repeat split; auto.
      * simpl in Hstep; injection Hstep as <-; simpl; rewrite ?errorsOf_app; simpl;
          rewrite <- ?app_assoc, ?orb_false_r, ?orb_true_r; simpl;
          repeat split; auto.
Qed.

(** ** Flags, timers and the console over a whole run *)

Lemma runFrom_finishing :
  runFrom twoParagraphs awaitingClassification
    [Tick; Reply Classify (Rejected (JsString "offline")); Tick] = Some finished.
Proof. vm_compute. reflexivity. Qed.

(** X1.  From any state on, no callback ever clears [haveSummary] or
    [haveClassification] once set, registers the interval again once it is
    cleared, or arms the timeout again once it has fired. *)
Theorem flags_and_timers_never_reset (artoo : Artoo) (evs : list Event) :
  forall s s',
    runFrom artoo s evs = Some s' ->
    (haveSummary s = true -> haveSummary s' = true) /\
    (haveClassification s = true -> haveClassification s' = true) /\
    (intervalActive s = false -> intervalActive s' = false) /\
    (timeoutPending s = false -> timeoutPending s' = false).
Proof.
  induction evs as [|ev evs IH]; simpl; intros s s' Hrun.
  - injection Hrun as <-. auto.
  - destruct (step artoo s ev) as [s1|] eqn:Est; [|discriminate].
    destruct (step_vars _ _ _ _ Est) as (Hs & Hc & _ & _ & Hi & Ht & _).
    destruct (IH _ _ Hrun) as (IHs & IHc & IHi & IHt).
    repeat split; intros H.
    + apply IHs. rewrite Hs, H. reflexivity.
    + apply IHc. rewrite Hc, H. reflexivity.
    + apply IHi. destruct (intervalActive s1); [|reflexivity].
      rewrite Hi in H; [discriminate | reflexivity].
    + apply IHt. destruct (timeoutPending s1); [|reflexivity].
      rewrite Ht in H; [discriminate | reflexivity].
Qed.

Lemma flags_and_timers_never_reset_witness :
  haveSummary awaitingClassification = true /\
  timeoutPending awaitingClassification = false /\
  haveSummary finished = true /\ timeoutPending finished = false.
Proof.
  pose proof (flags_and_timers_never_reset twoParagraphs _ _ _ runFrom_finishing)
    as (Hs & _ & _ & Ht).
  split; [reflexivity|]. split; [reflexivity|].
  split; [apply Hs | apply Ht]; reflexivity.
Defined.

Lemma dots_shift n : String "." (dots n) = (dots n ++ ".")%string.
Proof.
  induction n as [|n IH]; simpl; [reflexivity|].
  rewrite <- IH. simpl. now rewrite <- IH.
Qed.

Lemma string_app_nil_r (a : string) : (a ++ EmptyString)%string = a.
Proof. induction a as [|x a IH]; simpl; [reflexivity | now rewrite IH]. Qed.

Lemma runFrom_dots artoo evs : forall s s',
  runFrom artoo s evs = Some s' ->
  baseSummaryText s' =
    (baseSummaryText s ++
     dots (if haveSummary s then 0 else ticksUntil endsSummary evs))%string /\
  baseClassificationText s' =
    (baseClassificationText s ++
     dots (if haveClassification s then 0
           else ticksUntil endsClassification evs))%string.
Proof.
  induction evs as [|ev evs IH]; simpl; intros s s' Hrun.
  - injection Hrun as <-.
    destruct (haveSummary s), (haveClassification s); simpl;
      now rewrite !string_app_nil_r.
  - destruct (step artoo s ev) as [s1|] eqn:Est; [|discriminate].
    destruct (step_vars _ _ _ _ Est) as (Hs & Hc & Hbs & Hbc & _).
    destruct (IH _ _ Hrun) as (IHs & IHc).
    rewrite IHs, IHc, Hs, Hc, Hbs, Hbc. clear.
    split.
    + destruct (haveSummary s); simpl.
      * now rewrite andb_false_r.
      * rewrite andb_true_r. destruct (endsSummary ev) eqn:E.
        -- destruct ev; try discriminate. reflexivity.
        -- destruct ev; simpl; try reflexivity.
           rewrite string_app_assoc. simpl. now rewrite dots_shift.
    + destruct (haveClassification s); simpl.
      * now rewrite andb_false_r.
      * rewrite andb_true_r. destruct (endsClassification ev) eqn:E.
        -- destruct ev; try discriminate. reflexivity.
        -- destruct ev; simpl; try reflexivity.
           rewrite string_app_assoc. simpl. now rewrite dots_shift.
Qed.

(** X2.  In every run the base text of a leg is its initial text followed
    by one dot for each tick delivered before the event that ended the leg:
    the summarize reply for the summary, the classify reply or a failed
    summarize reply for the classification.  Ticks after that add
    nothing. *)
Theorem one_dot_per_tick (artoo : Artoo) (evs : list Event) (s : State) :
  run artoo evs = Some s ->
  baseSummaryText s =
    (initialSummaryText ++ dots (ticksUntil endsSummary evs))%string /\
  baseClassificationText s =
    (initialClassificationText ++ dots (ticksUntil endsClassification evs))%string.
Proof. intros Hrun. exact (runFrom_dots artoo evs init s Hrun). Qed.

Lemma one_dot_per_tick_witness :
  baseSummaryText finished = "Summarising ...." /\
  baseClassificationText finished = "Classifying .....".
Proof.
  exact (one_dot_per_tick twoParagraphs untilDone finished run_untilDone).
Defined.

Lemma runFrom_errors artoo evs : forall s s',
  runFrom artoo s evs = Some s' ->
  errorsOf (effects s') = errorsOf (effects s) ++ flat_map rejection evs.
Proof.
  induction evs as [|ev evs IH]; simpl; intros s s' Hrun.
  - injection Hrun as <-. now rewrite app_nil_r.
  - destruct (step artoo s ev) as [s1|] eqn:Est; [|discriminate].
    destruct (step_vars _ _ _ _ Est) as (_ & _ & _ & _ & _ & _ & He).
    rewrite (IH _ _ Hrun), He. now rewrite app_assoc.
Qed.

(** X3.  In every run [console.error] has been called with exactly the
    reasons of the promises that rejected, in the order they rejected.  A
    response with a status other than 200, and an exception caught around
    the scrape, are not logged. *)
Theorem console_logs_rejections (artoo : Artoo) (evs : list Event) (s : State) :
  run artoo evs = Some s ->
  errorsOf (effects s) = flat_map rejection evs.
Proof. intros Hrun. exact (runFrom_errors artoo evs init s Hrun). Qed.

Lemma console_logs_rejections_witness :
  errorsOf (effects finished) = [JsString "offline"].
Proof.
  exact (console_logs_rejections twoParagraphs untilDone finished run_untilDone).
Defined.

(** ** Every reply reaches the host, and its message is the last word *)

Lemma step_reply_sent artoo s ep r s' :
  step artoo s (Reply ep r) = Some s' ->
  sent s' = sent s ++ replyMessages ep r.
Proof.
  intros Hstep.
  unfold step in Hstep. destruct (enabled s (Reply ep r)) eqn:En; [|discriminate].
  destruct s as [hs bst hc bct at_ ia tp sc cc ef un]; simpl in *; subst.
  unfold sent, replyMessages, resultText, failed; simpl.
  destruct ep; simpl in En.
  - destruct sc as [|body|]; try discriminate.
    destruct r as [res|e]; unfold_callbacks Hstep.
    + destruct (Z.eqb (status res) 200); simpl in Hstep; injection Hstep as <-;
        simpl; rewrite ?messagesOf_app; simpl; rewrite <- ?app_assoc; simpl; auto.
    + simpl in Hstep; injection Hstep as <-;
        simpl; rewrite ?messagesOf_app; simpl; rewrite <- ?app_assoc; simpl; auto.
  - destruct cc as [|body|]; try discriminate.
    destruct r as [res|e]; unfold_callbacks Hstep.
    + destruct (Z.eqb (status res) 200); simpl in Hstep; injection Hstep as <-;
        simpl; rewrite ?messagesOf_app; simpl; rewrite <- ?app_assoc; simpl; auto.
    + simpl in Hstep; injection Hstep as <-;
        simpl; rewrite ?messagesOf_app; simpl; rewrite <- ?app_assoc; simpl; auto.
Qed.

Lemma runFrom_reported artoo evs : forall s s' ep r,
  runFrom artoo s evs = Some s' ->
  In (Reply ep r) evs ->
  incl (replyMessages ep r) (sent s').
Proof.
  induction evs as [|ev evs IH]; simpl; intros s s' ep r Hrun Hin; [contradiction|].
  destruct (step artoo s ev) as [s1|] eqn:Est; [|discriminate].
  destruct Hin as [->|Hin]; [|eapply IH; eassumption].
  destruct (runFrom_sent _ _ _ _ Hrun) as (new & -> & _).
  rewrite (step_reply_sent _ _ _ _ _ Est).
  intros m Hm. apply in_or_app; left. apply in_or_app; now right.
Qed.

(** X4.  In every run, each reply that was delivered has been reported to
    the host: under the label of its endpoint there is a message carrying
    the response's [data] when the call fulfilled with status 200 and the
    fallback text of that stage otherwise; and when the summarize call
    failed, the Classification fallback has been sent as well. *)
Theorem every_reply_is_reported (artoo : Artoo) (evs : list Event) (s : State)
    (ep : Endpoint) (r : Settlement) :
  run artoo evs = Some s ->
  In (Reply ep r) evs ->
  In (mkMessage (label ep) (resultText ep r)) (sent s) /\
  (ep = Summarize -> failed r = true ->
   In (mkMessage "Classification" (JsString classificationFallback)) (sent s)).
Proof.
  intros Hrun Hin.
  pose proof (runFrom_reported artoo evs init s ep r Hrun Hin) as Hincl.
  split.
  - apply Hincl. now left.
  - intros -> Hf. apply Hincl. unfold replyMessages. rewrite Hf. right. now left.
Qed.

Lemma every_reply_is_reported_witness :
  In (mkMessage "Summary" (JsString "summary")) (sent finished) /\
  In (mkMessage "Classification" (JsString classificationFallback)) (sent finished).
Proof.
  split.
  - refine (proj1 (every_reply_is_reported twoParagraphs untilDone finished Summarize
             (Fulfilled (mkResponse 200 (JsString "summary"))) run_untilDone _)).
    right. right. now left.
  - refine (proj1 (every_reply_is_reported twoParagraphs untilDone finished Classify
             (Rejected (JsString "offline")) run_untilDone _)).
    right. right. right. right. now left.
Defined.

Lemma lastOfType_app ty l1 l2 :
  lastOfType ty (l1 ++ l2) =
  match lastOfType ty l2 with
  | Some m => Some m
  | None => lastOfType ty l1
  end.
Proof.
  induction l1 as [|m l1 IH]; simpl.
  - now destruct (lastOfType ty l2).
  - rewrite IH. now destruct (lastOfType ty l2).
Qed.

Lemma Final_init : Final init.
Proof. constructor; simpl; intros; discriminate. Qed.

Ltac final_finish :=
  unfold sent; simpl; rewrite ?messagesOf_app, ?lastOfType_app; simpl;
  try solve [ discriminate | congruence | reflexivity ].

Lemma Final_step artoo s ev s' :
  Inv s -> Final s -> step artoo s ev = Some s' -> Final s'.
Proof.
  intros [_ Ht Hs Hc Hch _ _ _ _] [Fs Fc Fd] Hstep.
  destruct ev as [| |ep r].
  - unfold step in Hstep. destruct (enabled s Tick) eqn:En; [|discriminate].
    destruct s as [hs bst hc bct at_ ia tp sc cc ef un];
      unfold sent in *; simpl in *; subst.
    unfold_callbacks Hstep. simpl in Hstep.
    destruct (settled sc) eqn:Esc; destruct (settled cc || callFailed sc) eqn:Ecc;
      simpl in Hstep; injection Hstep as <-; constructor; unfold sent; simpl;
      rewrite ?messagesOf_app, ?lastOfType_app; simpl.
    all: try (intros body r ->; simpl in *; try discriminate; eauto; fail).
    all: try (intros Hf; rewrite Hf, ?orb_true_r in *; try discriminate; eauto; fail).
    all: try (intros body r Hcc; apply (Fs body r) in Hcc; exact Hcc).
    all: try (intros body r Hcc; apply (Fc body r) in Hcc; exact Hcc).
    all: try exact Fd.
  - apply step_timeout in Hstep as [Hpending ->].
    rewrite Hpending in Ht.
    destruct s as [hs bst hc bct at_ ia tp sc cc ef un];
      unfold sent, afterTimeout, set_call, set_allText, logAll, set_timeoutPending in *;
      cbn [effects summarizeCall classifyCall] in *.
    destruct sc; try discriminate.
    unfold chained in Hch; simpl in Hch. destruct cc; try contradiction.
    constructor; cbn [effects summarizeCall classifyCall callFailed];
      intros; discriminate.
  - unfold step in Hstep. destruct (enabled s (Reply ep r)) eqn:En; [|discriminate].
    destruct s as [hs bst hc bct at_ ia tp sc cc ef un];
      unfold sent, chained in *; simpl in *; subst.
    destruct ep; simpl in En.
    + destruct sc as [|sbody|]; try discriminate.
      destruct cc; try contradiction.
      destruct r as [res|e]; unfold_callbacks Hstep.
      * destruct (Z.eqb (status res) 200) eqn:Est; simpl in Hstep;
          injection Hstep as <-; constructor; unfold sent; simpl;
          rewrite ?messagesOf_app, ?lastOfType_app; simpl;
          try rewrite Est; simpl; try discriminate;
          try (intros body r Heq; injection Heq as _ <-; simpl; now rewrite Est);
          reflexivity.
      * simpl in Hstep; injection Hstep as <-; constructor; unfold sent; simpl;
          rewrite ?messagesOf_app, ?lastOfType_app; simpl; try discriminate;
          try (intros body r Heq; injection Heq as _ <-; reflexivity);
          reflexivity.
    + destruct cc as [|cbody|]; try discriminate.
      destruct sc as [| |sbody [sres|]]; try contradiction.
      destruct Hch as [Hst _].
      destruct r as [res|e]; unfold_callbacks Hstep.
      * destruct (Z.eqb (status res) 200) eqn:Est; simpl in Hstep;
          injection Hstep as <-; constructor; unfold sent; simpl;
          rewrite ?messagesOf_app, ?lastOfType_app; simpl;
          try (intros body r Heq; injection Heq as _ <-; simpl; rewrite ?Est;
               first [reflexivity | exact (Fs _ _ eq_refl)]);
          try (rewrite Hst; simpl; discriminate).
      * simpl in Hstep; injection Hstep as <-; constructor; unfold sent; simpl;
          rewrite ?messagesOf_app, ?lastOfType_app; simpl;
          try (intros body r Heq; injection Heq as _ <-; simpl;
               first [reflexivity | exact (Fs _ _ eq_refl)]);
          try (rewrite Hst; simpl; discriminate).
Qed.

Lemma Final_runFrom artoo evs : forall s s',
  Inv s -> Final s -> runFrom artoo s evs = Some s' -> Final s'.
Proof.
  induction evs as [|ev evs IH]; simpl; intros s s' HI HF Hrun.
  - now injection Hrun as <-.
  - destruct (step artoo s ev) as [s1|] eqn:Est; [|discriminate].
    eapply IH; [eapply Inv_step | eapply Final_step | exact Hrun]; eassumption.
Qed.

(** X5.  In every state a run can reach, once the summarize call has
    settled the last Summary message sent is its result (the response's
    [data] for status 200, the Summary fallback otherwise), and likewise for
    the classify call and the last Classification message; after a failed
    summarize call the last Classification message is the Classification
    fallback.  No progress message ever follows the result of its leg. *)
Theorem result_is_the_last_message (artoo : Artoo) (evs : list Event) (s : State) :
  run artoo evs = Some s ->
  (forall body r,
     summarizeCall s = Settled body r ->
     lastOfType "Summary" (sent s)
       = Some (mkMessage "Summary" (resultText Summarize r))) /\
  (forall body r,
     classifyCall s = Settled body r ->
     lastOfType "Classification" (sent s)
       = Some (mkMessage "Classification" (resultText Classify r))) /\
  (callFailed (summarizeCall s) = true ->
   lastOfType "Classification" (sent s)
     = Some (mkMessage "Classification" (JsString classificationFallback))).
Proof.
  intros Hrun.
  destruct (Final_runFrom artoo evs init s Inv_init Final_init Hrun) as [Fs Fc Fd].
  auto.
Qed.

Lemma result_is_the_last_message_witness :
  lastOfType "Summary" (sent finished)
    = Some (mkMessage "Summary" (JsString "summary")) /\
  lastOfType "Classification" (sent finished)
    = Some (mkMessage "Classification" (JsString classificationFallback)).
Proof.
  destruct (result_is_the_last_message twoParagraphs untilDone finished
              run_untilDone) as (Hs & Hc & _).
  split.
  - exact (Hs _ _ eq_refl).
  - exact (Hc _ _ eq_refl).
Defined.

(** ** The page is scraped once *)

Lemma step_page artoo s ev s' :
  step artoo s ev = Some s' ->
  ev <> Timeout ->
  timeoutPending s' = timeoutPending s /\
  allText s' = allText s /\
  selectorsOf (effects s') = selectorsOf (effects s) /\
  bodyOf (summarizeCall s') = bodyOf (summarizeCall s).
Proof.
  intros Hstep Hev. destruct ev as [| |ep r]; [|now contradiction Hev|].
  - unfold step in Hstep. destruct (enabled s Tick) eqn:En; [|discriminate].
    destruct s as [hs bst hc bct at_ ia tp sc cc ef un]; simpl in *; subst.
    unfold_callbacks Hstep. simpl in Hstep.
    destruct hs, hc; simpl in Hstep; injection Hstep as <-; simpl;
      rewrite ?selectorsOf_app; simpl; rewrite ?app_nil_r; auto.
  - unfold step in Hstep. destruct (enabled s (Reply ep r)) eqn:En; [|discriminate].
    destruct s as [hs bst hc bct at_ ia tp sc cc ef un]; simpl in *; subst.
    destruct ep; simpl in En.
    + destruct sc as [|body|]; try discriminate.
      destruct r as [res|e]; unfold_callbacks Hstep.
      * destruct (Z.eqb (status res) 200); simpl in Hstep; injection Hstep as <-;
          simpl; rewrite ?selectorsOf_app; simpl; rewrite ?app_nil_r; auto.
      * simpl in Hstep; injection Hstep as <-;
          simpl; rewrite ?selectorsOf_app; simpl; rewrite ?app_nil_r; auto.
    + destruct cc as [|body|]; try discriminate.
      destruct r as [res|e]; unfold_callbacks Hstep.
      * destruct (Z.eqb (status res) 200); simpl in Hstep; injection Hstep as <-;
          simpl; rewrite ?selectorsOf_app; simpl; rewrite ?app_nil_r; auto.
      * simpl in Hstep; injection Hstep as <-;
          simpl; rewrite ?selectorsOf_app; simpl; rewrite ?app_nil_r; auto.
Qed.

Lemma Paged_step artoo s ev s' :
  Paged artoo s -> step artoo s ev = Some s' -> Paged artoo s'.
Proof.
  intros HP Hstep. unfold Paged in *.
  destruct ev as [| |ep r].
  - destruct (step_page _ _ _ _ Hstep) as (-> & -> & -> & ->); [discriminate|].
    exact HP.
  - apply step_timeout in Hstep as [Hpending ->]. rewrite Hpending in HP.
    destruct HP as [_ Hsel].
    unfold afterTimeout, set_call, set_allText, logAll, set_timeoutPending.
    cbn [timeoutPending allText effects summarizeCall bodyOf].
    rewrite !selectorsOf_app, selectorsOf_scrapes, Hsel. simpl.
    rewrite app_nil_r. auto.
  - destruct (step_page _ _ _ _ Hstep) as (-> & -> & -> & ->); [discriminate|].
    exact HP.
Qed.

Lemma Paged_runFrom artoo evs : forall s s',
  Paged artoo s -> runFrom artoo s evs = Some s' -> Paged artoo s'.
Proof.
  induction evs as [|ev evs IH]; simpl; intros s s' HP Hrun.
  - now injection Hrun as <-.
  - destruct (step artoo s ev) as [s1|] eqn:Est; [|discriminate].
    eapply IH; [eapply Paged_step; eassumption | exact Hrun].
Qed.

(** X6.  In every run the page is scraped once, by the timeout callback.
    Until it has run, [allText] is empty and nothing has been scraped or
    posted.  From then on [allText] and the selectors scraped are those the
    [try] statement produced, no later callback changes them, and the first
    request in the log is the summarize request carrying [allText]. *)
Theorem page_is_scraped_once (artoo : Artoo) (evs : list Event) (s : State) :
  run artoo evs = Some s ->
  if timeoutPending s
  then allText s = EmptyString /\
       selectorsOf (effects s) = [] /\
       postsOf (effects s) = []
  else allText s = allText (snd (scrapeAll artoo init)) /\
       selectorsOf (effects s) = selectorsOf (effects (snd (scrapeAll artoo init))) /\
       exists rest,
         postsOf (effects s) = (Summarize, JsString (allText s)) :: rest.
Proof.
  intros Hrun.
  assert (HP : Paged artoo s).
  { apply (Paged_runFrom artoo evs init s); [|exact Hrun]. split; reflexivity. }
  apply Inv_run in Hrun. destruct Hrun as [_ Ht _ _ Hch _ _ _ Hp].
  unfold Paged in HP. rewrite scrapeAll_eq.
  unfold set_allText, logAll. cbn [snd allText effects].
  rewrite selectorsOf_app, selectorsOf_scrapes.
  change (selectorsOf (effects init)) with (@nil string). cbn [app].
  destruct (timeoutPending s).
  - destruct HP as [Ha Hs]. split; [exact Ha|]. split; [exact Hs|].
    rewrite Hp. unfold chained in Hch.
    destruct (summarizeCall s); try discriminate.
    destruct (classifyCall s); try contradiction. reflexivity.
  - destruct HP as (Ha & Hs & Hb). split; [exact Ha|]. split; [exact Hs|].
    rewrite Hp, Ha.
    destruct (summarizeCall s) as [|body|body r]; simpl in *; try discriminate;
      injection Hb as ->; eexists; reflexivity.
Qed.

Lemma page_is_scraped_once_witness :
  allText finished = allText (snd (scrapeAll twoParagraphs init)) /\
  selectorsOf (effects finished) = ["p"%string].
Proof.
  pose proof (page_is_scraped_once twoParagraphs untilDone finished run_untilDone)
    as H.
  change (timeoutPending finished) with false in H. cbv iota in H.
  destruct H as (Ha & Hs & _). split; [exact Ha | exact Hs].
Defined.

(** ** What truncation keeps *)

Lemma substring_prefix (n : nat) (t : string) : prefix (substring 0 n t) t = true.
Proof.
  revert t; induction n as [|n IH]; intros [|c t]; simpl; try reflexivity.
  destruct (ascii_dec c c) as [_|Hne]; [apply IH | now contradiction Hne].
Qed.

Lemma prefix_refl (t : string) : prefix t t = true.
Proof.
  induction t as [|c t IH]; simpl; [reflexivity|].
  destruct (ascii_dec c c) as [_|Hne]; [exact IH | now contradiction Hne].
Qed.

Lemma substring_length_exact (n : nat) (t : string) :
  n <= String.length t -> String.length (substring 0 n t) = n.
Proof.
  revert t; induction n as [|n IH]; intros [|c t]; simpl; intros H; try lia.
  rewrite IH; lia.
Qed.

(** X7.  When paragraphs were scraped, the text left in [allText] is the
    head of the joined text: a prefix of it, of length the smaller of the
    joined length and [NN].  A text of at most [NN] characters is kept whole;
    a longer one loses only its tail. *)
Theorem truncation_keeps_the_head (artoo : Artoo) (s : State)
    (fragments : list string) :
  artoo "p" = Scraped fragments ->
  fragments <> [] ->
  let joined := join separator fragments in
  let kept := allText (snd (scrapeAll artoo s)) in
  prefix kept joined = true /\
  String.length kept = Nat.min (String.length joined) NN.
Proof.
  intros Hp Hne. rewrite scrapeAll_eq.
  cbn [snd allText set_allText].
  unfold scrapedText, extractOutcome. rewrite Hp.
  destruct fragments as [|f fragments]; [now contradiction Hne|].
  cbv zeta. unfold cut.
  destruct (Nat.ltb NN (String.length (join separator (f :: fragments)))) eqn:E.
  - apply Nat.ltb_lt in E. split.
    + apply substring_prefix.
    + rewrite substring_length_exact; lia.
  - apply Nat.ltb_ge in E. split.
    + apply prefix_refl.
    + lia.
Qed.

Lemma truncation_keeps_the_head_witness :
  prefix (allText (snd (scrapeAll twoParagraphs init)))
         (join separator ["a"; "b"]) = true /\
  String.length (allText (snd (scrapeAll twoParagraphs init)))
    = Nat.min (String.length (join separator ["a"; "b"])) NN.
Proof.
  apply (truncation_keeps_the_head twoParagraphs init ["a"; "b"]).
  - reflexivity.
  - discriminate.
Defined.

(** ** The heading loop *)

Lemma heading_all_return artoo count : forall i scraped,
  (forall j, j < count -> exists fr, artoo (headingSelector (i + j)) = Scraped fr) ->
  headingSelectors artoo count i = map headingSelector (seq i count) /\
  headingFragments artoo count i scraped =
    match count with
    | O => Normal scraped
    | S last =>
        match artoo (headingSelector (i + last)) with
        | Scraped fr => Normal fr
        | Throws e => Thrown e
        end
    end.
Proof.
  induction count as [|count IH]; intros i scraped Hall; [split; reflexivity|].
  destruct (Hall 0 (Nat.lt_0_succ _)) as [fr0 H0].
  rewrite Nat.add_0_r in H0. unfold headingSelector in H0.
  cbn [headingSelectors headingFragments seq map]. rewrite H0.
  destruct (IH (S i) fr0) as [Hsel Hfr].
  { intros j Hj. replace (S i + j) with (i + S j) by lia. apply Hall. lia. }
  split.
  - now rewrite Hsel.
  - rewrite Hfr. destruct count as [|last].
    + rewrite Nat.add_0_r. unfold headingSelector. now rewrite H0.
    + now replace (S i + last) with (i + S last) by lia.
Qed.

Lemma heading_first_throw artoo count : forall i k e scraped,
  k < count ->
  (forall j, j < k -> exists fr, artoo (headingSelector (i + j)) = Scraped fr) ->
  artoo (headingSelector (i + k)) = Throws e ->
  headingSelectors artoo count i = map headingSelector (seq i (S k)) /\
  headingFragments artoo count i scraped = Thrown e.
Proof.
  induction count as [|count IH]; intros i k e scraped Hk Hbefore Hthrow; [lia|].
  cbn [headingSelectors headingFragments].
  destruct k as [|k].
  - rewrite Nat.add_0_r in Hthrow. unfold headingSelector in Hthrow.
    rewrite Hthrow. split; reflexivity.
  - destruct (Hbefore 0 (Nat.lt_0_succ _)) as [fr0 H0].
    rewrite Nat.add_0_r in H0. unfold headingSelector in H0. rewrite H0.
    destruct (IH (S i) k e fr0) as [Hsel Hfr].
    + lia.
    + intros j Hj. replace (S i + j) with (i + S j) by lia. apply Hbefore. lia.
    + now replace (S i + k) with (i + S k) by lia.
    + split; [|exact Hfr]. rewrite Hsel. reflexivity.
Qed.

(** X8.  When no paragraph is found and every heading scrape returns, the
    script asks for [h0] to [h5] in that order, never for [h6], and the text
    it keeps is that of [h5] alone, joined and cut; what [h0] to [h4]
    returned is overwritten. *)
Theorem fallback_keeps_the_last_level (artoo : Artoo) (s : State)
    (last : list string) :
  artoo "p" = Scraped [] ->
  (forall j, j < 5 -> exists fr, artoo (headingSelector j) = Scraped fr) ->
  artoo (headingSelector 5) = Scraped last ->
  let s' := snd (scrapeAll artoo s) in
  selectorsOf (effects s') =
    selectorsOf (effects s) ++ ["p"; "h0"; "h1"; "h2"; "h3"; "h4"; "h5"]%string /\
  allText s' =
    let joined := join separator last in
    if Nat.ltb NN (String.length joined) then substring 0 NN joined else joined.
Proof.
  intros Hp Hfirst Hlast.
  destruct (heading_all_return artoo 6 0 []) as [Hsel Hfr].
  { intros j Hj. destruct (Nat.eq_dec j 5) as [->|Hne].
    - exists last. exact Hlast.
    - apply Hfirst. simpl. lia. }
  cbn [Nat.add] in Hfr. rewrite Hlast in Hfr.
  rewrite scrapeAll_eq. unfold set_allText, logAll. cbn [snd allText effects].
  rewrite selectorsOf_app, selectorsOf_scrapes.
  unfold scrapedSelectors, scrapedText, extractOutcome. rewrite Hp, Hsel, Hfr.
  split; reflexivity.
Qed.

Lemma fallback_keeps_the_last_level_witness :
  selectorsOf (effects (snd (scrapeAll everyHeading init))) =
    ["p"; "h0"; "h1"; "h2"; "h3"; "h4"; "h5"]%string /\
  allText (snd (scrapeAll everyHeading init)) = "text of h5"%string.
Proof.
  apply (fallback_keeps_the_last_level everyHeading init ["text of h5"%string]).
  - reflexivity.
  - intros j Hj.
    destruct j as [|[|[|[|[|j]]]]]; [eexists; reflexivity ..|lia].
  - reflexivity.
Defined.

(** X9.  When no paragraph is found and the scrape of heading level [k]
    (below 6) is the first to throw, the script has asked for [h0] to [hk]
    and for nothing after, and [allText] is empty: the text of the levels
    scraped before the throw is dropped. *)
Theorem throwing_heading_ends_the_scrape (artoo : Artoo) (s : State)
    (k : nat) (e : JsValue) :
  artoo "p" = Scraped [] ->
  k < 6 ->
  (forall j, j < k -> exists fr, artoo (headingSelector j) = Scraped fr) ->
  artoo (headingSelector k) = Throws e ->
  let s' := snd (scrapeAll artoo s) in
  selectorsOf (effects s') =
    selectorsOf (effects s) ++ "p"%string :: map headingSelector (seq 0 (S k)) /\
  allText s' = EmptyString.
Proof.
  intros Hp Hk Hbefore Hthrow.
  destruct (heading_first_throw artoo 6 0 k e [] Hk Hbefore Hthrow) as [Hsel Hfr].
  rewrite scrapeAll_eq. unfold set_allText, logAll. cbn [snd allText effects].
  rewrite selectorsOf_app, selectorsOf_scrapes.
  unfold scrapedSelectors, scrapedText, extractOutcome. rewrite Hp, Hsel, Hfr.
  split; reflexivity.
Qed.

Lemma throwing_heading_ends_the_scrape_witness :
  selectorsOf (effects (snd (scrapeAll brokenAtH2 init))) =
    ["p"; "h0"; "h1"; "h2"]%string /\
  allText (snd (scrapeAll brokenAtH2 init)) = EmptyString.
Proof.
  apply (throwing_heading_ends_the_scrape brokenAtH2 init 2 (JsString "scrape failed")).
  - reflexivity.
  - lia.
  - intros j Hj. destruct j as [|[|j]]; try (eexists; reflexivity). lia.
  - reflexivity.
Defined.

(** ** Nothing escapes *)

Lemma nothing_escapes_witness : uncaught finished = [].
Proof. exact (nothing_escapes twoParagraphs untilDone finished run_untilDone). Defined.

End PayloadFacts.

(** * Properties of the activity repository client *)

Module ActivityRepositoryFacts.
Import ActivityRepository.

(** C1.  Section 4.3 keeps rejection for transport failures and sets them
    apart from the check of the key.  So, whenever the request reaches the
    service of the client's environment, local or production, and whatever
    the record: with a session key the service accepts [save] resolves to
    [true]; with a key it refuses [save] resolves to [false], a resolved
    boolean and not a rejection. *)
Theorem save_resolves_by_key (w : World) (api : ActivityRepostoryApi)
    (record : ActivityRecord) :
  reachable (w (environment api)) = true ->
  (acceptsKey (w (environment api)) (sessionKey api) = true ->
   save w api record = Resolved true) /\
  (acceptsKey (w (environment api)) (sessionKey api) = false ->
   save w api record = Resolved false /\
   forall reason, save w api record <> Rejection reason).
Proof.
  intros Hreach. unfold save. cbv zeta. rewrite Hreach.
  split; intros ->; [reflexivity|]. split; [reflexivity | discriminate].
Qed.

Lemma save_resolves_by_key_witness :
  (save bothUp (mkApi kLocal "secret") (mkRecord "7" []) = Resolved true /\
   save bothUp (mkApi kProduction "secret") (mkRecord "7" []) = Resolved true) /\
  (save bothUp (mkApi kLocal "thiswillfail") (mkRecord "7" []) = Resolved false /\
   save bothUp (mkApi kProduction "thiswillfail") (mkRecord "7" []) = Resolved false).
Proof.
  split; split.
  - exact (proj1 (save_resolves_by_key bothUp (mkApi kLocal "secret")
                    (mkRecord "7" []) eq_refl) eq_refl).
  - exact (proj1 (save_resolves_by_key bothUp (mkApi kProduction "secret")
                    (mkRecord "7" []) eq_refl) eq_refl).
  - exact (proj1 (proj2 (save_resolves_by_key bothUp (mkApi kLocal "thiswillfail")
                           (mkRecord "7" []) eq_refl) eq_refl)).
  - exact (proj1 (proj2 (save_resolves_by_key bothUp
                           (mkApi kProduction "thiswillfail")
                           (mkRecord "7" []) eq_refl) eq_refl)).
Defined.

(** The suite passes wherever both services answer, both accept
    [process.env.SessionKey] and the local one refuses "thiswillfail";
    what production does with "thiswillfail" plays no part. *)
Lemma suite_passes (envKey : string) (w : World) (key : string) :
  reachable (w kLocal) = true ->
  reachable (w kProduction) = true ->
  acceptsKey (w kLocal) envKey = true ->
  acceptsKey (w kProduction) envKey = true ->
  acceptsKey (w kLocal) "thiswillfail" = false ->
  suitePasses envKey w key.
Proof.
  intros Hl Hp Hkl Hkp Hbad.
  unfold suitePasses, suite, saveCase, save; simpl.
  repeat constructor; simpl; rewrite ?Hl, ?Hp, ?Hkl, ?Hkp, ?Hbad; reflexivity.
Qed.

(** Conversely, the four cases pass only in such a world: they demand of
    the client exactly that a key both services accept saves in both
    environments and that "thiswillfail" is refused, without a rejection,
    in the local one. *)
Lemma suite_passes_only_if (envKey : string) (w : World) (key : string) :
  suitePasses envKey w key ->
  reachable (w kLocal) = true /\
  reachable (w kProduction) = true /\
  acceptsKey (w kLocal) envKey = true /\
  acceptsKey (w kProduction) envKey = true /\
  acceptsKey (w kLocal) "thiswillfail" = false.
Proof.
  unfold suitePasses, suite. intros H.
  inversion_clear H as [|? ? H1 Ha]. inversion_clear Ha as [|? ? H2 Hb].
  inversion_clear Hb as [|? ? H3 _].
  unfold saveCase, save in H1, H2, H3. cbn [environment sessionKey] in H1, H2, H3.
  destruct (reachable (w kLocal)); [|discriminate].
  destruct (reachable (w kProduction)); [|discriminate].
  destruct (acceptsKey (w kLocal) envKey); [|discriminate].
  destruct (acceptsKey (w kProduction) envKey); [|discriminate].
  destruct (acceptsKey (w kLocal) "thiswillfail"); [discriminate|].
  repeat split.
Qed.

Lemma suite_is_suiteWith (envKey : string) (w : World) (key : string) :
  map (fun test => test w key) (suite envKey) =
  map (fun test => test key) (suiteWith (clientIn w) envKey).
Proof. reflexivity. Qed.

(** X11.  The verdicts of the four cases depend on the client only through
    what it does in the local environment and what it does in production
    with [process.env.SessionKey]: two clients that agree there get the same
    verdicts, whatever either does in production with another key.  The
    case titled "invalid key in production environment" builds its client
    with [kLocal]. *)
Theorem suite_never_tries_an_invalid_key_in_production
    (c1 c2 : EEnvironment -> string -> ActivityRecord -> Promise bool)
    (envKey key : string) :
  (forall sessionKey record, c1 kLocal sessionKey record = c2 kLocal sessionKey record) ->
  (forall record, c1 kProduction envKey record = c2 kProduction envKey record) ->
  map (fun test => test key) (suiteWith c1 envKey) =
  map (fun test => test key) (suiteWith c2 envKey).
Proof.
  intros Hlocal Hprod. unfold suiteWith, saveCaseWith. cbn [map].
  now rewrite !Hlocal, Hprod.
Qed.

Lemma suite_never_tries_an_invalid_key_in_production_witness :
  clientIn bothUp kProduction "thiswillfail" (mkRecord "7" []) = Resolved false /\
  clientIn productionLax kProduction "thiswillfail" (mkRecord "7" []) = Resolved true /\
  map (fun test => test "7"%string) (suiteWith (clientIn bothUp) "secret") =
  map (fun test => test "7"%string) (suiteWith (clientIn productionLax) "secret").
Proof.
  split; [reflexivity|]. split; [reflexivity|].
  apply (suite_never_tries_an_invalid_key_in_production
           (clientIn bothUp) (clientIn productionLax) "secret" "7").
  - intros sessionKey record. reflexivity.
  - intros record. reflexivity.
Defined.

End ActivityRepositoryFacts.
